(** * gordo: preprocessor registry, gap-filling preprocessor, provider routing

    A shallow embedding of [gordo/machine/dataset/preprocessor.py] and of the
    multi-provider loader exercised by [tests/test_data_providers.py].

    Conventions of the embedding:
    - a [pd.Timestamp] and a [pd.Timedelta] are integers (nanoseconds), so
      timestamp arithmetic is arithmetic on [Z]; the range limits of pandas'
      64-bit representation are not modelled;
    - a Python call that may raise returns an [outcome]; a call that also
      mutates an object returns the object's final state next to the outcome;
    - a [dict] whose iteration order is observable ([defaultdict] in
      [FillGapsPreprocessor]) is an association list in insertion order; a
      [dict] used as a map only ([_types], keyword arguments) is a [gmap]. *)

From Stdlib Require Import ZArith Lia Ascii Sorted.
From stdpp Require Import gmap strings list fin_maps.

Open Scope Z_scope.

(** ** Python values, exceptions, outcomes *)

(** The scalars that occur as configuration values and as table cells. *)
Inductive pyval : Type :=
| PyNone
| PyBool (b : bool)
| PyInt (n : Z)
| PyStr (s : string)
| PyTimedelta (ns : Z).

(** [ValueError] keeps the format string and the operands of [%] apart. *)
Inductive exn : Type :=
| ValueError (fmt : string) (args : list pyval)
| KeyError (key : string)
| TypeError
| RoutingError (unmatched : list string).

Inductive outcome (A : Type) : Type :=
| Return (a : A)
| Raise (e : exn).
Arguments Return {A} a.
Arguments Raise {A} e.

#[global] Instance outcome_ret : MRet outcome := λ A a, Return a.
#[global] Instance outcome_bind : MBind outcome :=
  λ A B f m, match m with Return a => f a | Raise e => Raise e end.
#[global] Instance outcome_fmap : FMap outcome :=
  λ A B f m, match m with Return a => Return (f a) | Raise e => Raise e end.

(** ** The gap-filling preprocessor object *)

(** A gap interval [(gap_start, gap_end)]. *)
Definition gap : Type := Z * Z.

(** [self._gaps]: a [defaultdict(list)], keys in insertion order. *)
Definition gaps_dict : Type := list (string * list gap).

Record FillGapsPreprocessor : Type := {
  gap_size : pyval;
  replace_value : pyval;
  _gaps : gaps_dict
}.

(** An instance of some [Preprocessor] subclass: the one defined in the
    module, or an object of a class registered by other code. *)
Inductive instance : Type :=
| FillGaps (p : FillGapsPreprocessor)
| Object (cls : string) (attrs : gmap string pyval).

(** A class as seen by the registry: calling it with positional and keyword
    arguments gives an instance or raises. *)
Definition constructor : Type :=
  list pyval → gmap string pyval → outcome instance.

(** ** Registry and factory *)

Definition already_added : string :=
  "Preprocessor with name '%s' has already been added".
Definition cant_find : string :=
  "Can't find a preprocessor with name '%s'".
Definition type_is_empty : string := "A preprocessor type is empty".

(** [preprocessor(preprocessor_type)(cls)], the decorator applied to a class,
    on the module-level dict [_types]. *)
Definition preprocessor (_types : gmap string constructor)
    (preprocessor_type : string) (cls : constructor)
  : gmap string constructor * outcome constructor :=
  match _types !! preprocessor_type with
  | Some _ => (_types, Raise (ValueError already_added [PyStr preprocessor_type]))
  | None => (<[preprocessor_type := cls]> _types, Return cls)
  end.

(** [preprocessor_type in _types] and [_types[preprocessor_type]]: the keys
    of [_types] are the strings given to the decorator, so any other value
    is not a key. *)
Definition types_get (_types : gmap string constructor)
    (preprocessor_type : pyval) : option constructor :=
  match preprocessor_type with
  | PyStr s => _types !! s
  | _ => None
  end.

Definition create_preprocessor (_types : gmap string constructor)
    (preprocessor_type : pyval) (args : list pyval)
    (kwargs : gmap string pyval) : outcome instance :=
  match types_get _types preprocessor_type with
  | None => Raise (ValueError cant_find [preprocessor_type])
  | Some cls => cls args kwargs
  end.

(** Dict objects live in a heap; a reference is a location. *)
Abbreviation loc := positive (only parsing).
Abbreviation heap := (gmap positive (gmap string pyval)) (only parsing).

(** What [normalize_preprocessor] may be given: a reference to a dict, an
    already constructed preprocessor, or any other value. *)
Inductive config : Type :=
| Dict (l : loc)
| Inst (i : instance)
| Scalar (v : pyval).

(** The contents of the dict at [l] (a reference always points to an
    allocated dict). *)
Definition deref (h : heap) (l : loc) : gmap string pyval := h !!! l.

(** [deepcopy(value)] for a dict of scalars: a new dict object with the same
    entries. *)
Definition deepcopy (h : heap) (l : loc) : heap * loc :=
  let l' := fresh (dom h) in (<[l' := deref h l]> h, l').

(** [d.pop(key)]: removes the entry from the dict object and returns its
    value. *)
Definition dict_pop (h : heap) (l : loc) (key : string)
  : heap * outcome pyval :=
  match deref h l !! key with
  | Some v => (<[l := delete key (deref h l)]> h, Return v)
  | None => (h, Raise (KeyError key))
  end.

Definition normalize_preprocessor (_types : gmap string constructor)
    (h : heap) (value : config) : heap * outcome config :=
  match value with
  | Dict l =>
      match deref h l !! "type"%string with
      | None => (h, Raise (ValueError type_is_empty []))
      | Some _ =>
          let '(h1, l') := deepcopy h l in
          match dict_pop h1 l' "type" with
          | (h2, Raise e) => (h2, Raise e)
          | (h2, Return preprocessor_type) =>
              (h2, Inst <$> create_preprocessor _types preprocessor_type []
                              (deref h2 l'))
          end
      end
  | _ => (h, Return value)
  end.

(** ** [FillGapsPreprocessor.__init__] and the registry after import *)

(** Binding of a call's arguments to a signature of two parameters without
    defaults; any mismatch is a [TypeError]. *)
Definition bind_params2 (p1 p2 : string) (args : list pyval)
    (kwargs : gmap string pyval) : outcome (pyval * pyval) :=
  match args with
  | [] =>
      match kwargs !! p1, kwargs !! p2 with
      | Some a, Some b =>
          if decide (size kwargs = 2%nat) then Return (a, b) else Raise TypeError
      | _, _ => Raise TypeError
      end
  | [a] =>
      match kwargs !! p2 with
      | Some b =>
          if decide (size kwargs = 1%nat) then Return (a, b) else Raise TypeError
      | None => Raise TypeError
      end
  | [a; b] =>
      if decide (size kwargs = 0%nat) then Return (a, b) else Raise TypeError
  | _ => Raise TypeError
  end.

Section Init.
(** [pd.Timedelta(s)] on a string: the duration in nanoseconds, or the
    exception pandas raises for a string it cannot parse. *)
Variable Timedelta : string → outcome Z.

Definition FillGapsPreprocessor_init (gap_size replace_value : pyval)
  : outcome FillGapsPreprocessor :=
  gap_size ←
    match gap_size with
    | PyStr s => PyTimedelta <$> Timedelta s
    | _ => Return gap_size
    end;
  Return {| gap_size := gap_size; replace_value := replace_value;
            _gaps := [] |}.

(** The class [FillGapsPreprocessor] as a callable. *)
Definition FillGapsPreprocessor_cls : constructor := λ args kwargs,
  '(gap_size, replace_value) ← bind_params2 "gap_size" "replace_value" args kwargs;
  FillGaps <$> FillGapsPreprocessor_init gap_size replace_value.

(** [_types] once the module is imported:
    [@preprocessor("fill_gaps") class FillGapsPreprocessor]. *)
Definition module_types : gmap string constructor :=
  (preprocessor ∅ "fill_gaps" FillGapsPreprocessor_cls).1.
End Init.

(** ** Raw series and [prepare_series] *)

(** A [pd.Series] with a time index: its name (the tag), the name of its
    index if it has one, the timestamps of the index and the values. *)
Record Series : Type := {
  name : string;
  index_name : option string;
  index : list Z;
  values : list pyval
}.

(** [idx.diff()]: [NaT] in the first row, and in every later row the row's
    timestamp minus the timestamp of the row before it. *)
Fixpoint diff_from (prev : Z) (idx : list Z) : list (option Z) :=
  match idx with
  | [] => []
  | t :: idx' => Some (t - prev) :: diff_from t idx'
  end.

Definition diff (idx : list Z) : list (option Z) :=
  match idx with
  | [] => []
  | t :: idx' => None :: diff_from t idx'
  end.

(** [df = pd.concat([idx, idx.diff().rename("Diff")], axis=1)]: each
    timestamp of the index next to its ["Diff"]. *)
Definition concat_diff (idx : list Z) : list (Z * option Z) :=
  zip idx (diff idx).

(** A row of [filtered_df] as [iterrows] gives it.  The timestamp column
    carries the name of the index as its label (no name: the integer label
    [0], which no string key equals); the other column is labelled
    ["Diff"] and is never [NaT] in a selected row.  The index is taken not
    to be named ["Diff"] itself. *)
Record row : Type := {
  time_label : option string;
  time : Z;
  Diff : Z
}.

(** [Diff > gap_size] for one row of [df]; [NaT] compares false, so the
    first row is never selected. *)
Definition select (label : option string) (g : Z) (r : Z * option Z)
  : option row :=
  match r.2 with
  | Some d =>
      if g <? d then Some {| time_label := label; time := r.1; Diff := d |}
      else None
  | None => None
  end.

(** [df[df["Diff"] > self.gap_size]]: comparing a timedelta column with
    anything but a timedelta is a [TypeError]. *)
Definition filtered_df (gap_size : pyval) (value : Series) : outcome (list row) :=
  match gap_size with
  | PyTimedelta g =>
      Return (omap (select (index_name value) g) (concat_diff (index value)))
  | _ => Raise TypeError
  end.

(** [row[key]]. *)
Definition row_getitem (r : row) (key : string) : outcome Z :=
  if decide (time_label r = Some key) then Return (time r)
  else if decide (key = "Diff"%string) then Return (Diff r)
  else Raise (KeyError key).

(** One element of the generator [gaps]:
    [(row["Time"], row["Time"] + row["Diff"])]. *)
Definition gap_of_row (r : row) : outcome gap :=
  gap_start ← row_getitem r "Time";
  t ← row_getitem r "Time";
  d ← row_getitem r "Diff";
  Return (gap_start, t + d).

(** [l.extend(gaps)]: elements are appended as the generator produces them;
    an exception raised by the generator leaves what was appended so far. *)
Fixpoint extend (l : list gap) (rows : list row) : list gap * outcome unit :=
  match rows with
  | [] => (l, Return ())
  | r :: rows' =>
      match gap_of_row r with
      | Return g => extend (l ++ [g]) rows'
      | Raise e => (l, Raise e)
      end
  end.

Fixpoint dict_get (d : gaps_dict) (key : string) : option (list gap) :=
  match d with
  | [] => None
  | (k, v) :: d' => if decide (k = key) then Some v else dict_get d' key
  end.

Fixpoint dict_set (d : gaps_dict) (key : string) (v : list gap) : gaps_dict :=
  match d with
  | [] => [(key, v)]
  | (k, w) :: d' =>
      if decide (k = key) then (k, v) :: d' else (k, w) :: dict_set d' key v
  end.

(** [d[key]] on a [defaultdict(list)]: a missing key is first inserted with
    an empty list. *)
Definition defaultdict_getitem (d : gaps_dict) (key : string)
  : gaps_dict * list gap :=
  match dict_get d key with
  | Some v => (d, v)
  | None => (d ++ [(key, [])], [])
  end.

(** The first loop of [prepare_series]. *)
Fixpoint scan (gap_size : pyval) (gaps : gaps_dict) (result : list Series)
    (series : list Series) : gaps_dict * outcome (list Series) :=
  match series with
  | [] => (gaps, Return result)
  | value :: series' =>
      let result := result ++ [value] in
      match filtered_df gap_size value with
      | Raise e => (gaps, Raise e)
      | Return filtered =>
          let '(gaps1, l) := defaultdict_getitem gaps (name value) in
          let '(l', out) := extend l filtered in
          let gaps2 := dict_set gaps1 (name value) l' in
          match out with
          | Raise e => (gaps2, Raise e)
          | Return _ => scan gap_size gaps2 result series'
          end
      end
  end.

(** One [logger.info] call: the arguments of the format string
    ["Found %d gap%s in '%s' time-series"]. *)
Definition log_record : Type := nat * string * string.

Definition log_gaps (gaps : gaps_dict) : list log_record :=
  map (λ '(name, gaps),
         (length gaps, if decide (1 < length gaps)%nat then "s" else "", name)%string)
      gaps.

(** [prepare_series]: the object afterwards, the log records emitted and
    the outcome of the call. *)
Definition prepare_series (self : FillGapsPreprocessor) (series : list Series)
  : FillGapsPreprocessor * list log_record * outcome (list Series) :=
  let '(gaps, out) := scan (gap_size self) (_gaps self) [] series in
  let self' := {| gap_size := gap_size self;
                  replace_value := replace_value self;
                  _gaps := gaps |} in
  match out with
  | Raise e => (self', [], Raise e)
  | Return result => (self', log_gaps gaps, Return result)
  end.

Definition reset (self : FillGapsPreprocessor) : FillGapsPreprocessor :=
  {| gap_size := gap_size self;
     replace_value := replace_value self;
     _gaps := [] |}.

(** ** Merged tables and [prepare_data] *)

(** A [pd.DataFrame]: the timestamps of the row index and the columns in
    order, each a label and its cells. *)
Record DataFrame : Type := {
  df_index : list Z;
  df_columns : list (string * list pyval)
}.

Definition columns (df : DataFrame) : list string := (df_columns df).*1.

(** [df.columns.get_loc(name)]: the positions labelled [name] (as a mask
    over the columns), or [KeyError] when there is none. *)
Definition get_loc (columns : list string) (name : string) : outcome (list bool) :=
  let mask := map (λ c, bool_decide (c = name)) columns in
  if existsb id mask then Return mask else Raise (KeyError name).

(** [(df.index > gap_start) & (df.index < gap_end)]. *)
Definition between (gap_start gap_end : Z) (t : Z) : bool :=
  (gap_start <? t) && (t <? gap_end).

Definition index_mask (idx : list Z) (gap_start gap_end : Z) : list bool :=
  map (between gap_start gap_end) idx.

(** Assignment of [v] to the cells of one column selected by a row mask. *)
Fixpoint assign (mask : list bool) (col : list pyval) (v : pyval) : list pyval :=
  match mask, col with
  | b :: mask', c :: col' => (if b then v else c) :: assign mask' col' v
  | _, _ => col
  end.

(** [df.iloc[rows, cols] = v] with boolean masks for rows and columns. *)
Definition iloc_setitem (df : DataFrame) (rows cols : list bool) (v : pyval)
  : DataFrame :=
  {| df_index := df_index df;
     df_columns :=
       zip_with (λ (b : bool) c, if b then (c.1, assign rows c.2 v) else c)
         cols (df_columns df) |}.

(** The inner loop of [prepare_data], over the gaps of one name; the table
    is updated in place, so it comes back also when the loop raises. *)
Fixpoint fill_gaps (replace_value : pyval) (name : string) (gaps : list gap)
    (df : DataFrame) : DataFrame * outcome unit :=
  match gaps with
  | [] => (df, Return ())
  | (gap_start, gap_end) :: gaps' =>
      match get_loc (columns df) name with
      | Raise e => (df, Raise e)
      | Return loc =>
          fill_gaps replace_value name gaps'
            (iloc_setitem df (index_mask (df_index df) gap_start gap_end) loc
               replace_value)
      end
  end.

(** The outer loop, over [self._gaps.items()]. *)
Fixpoint fill_items (replace_value : pyval) (items : gaps_dict)
    (df : DataFrame) : DataFrame * outcome unit :=
  match items with
  | [] => (df, Return ())
  | (name, gaps) :: items' =>
      match fill_gaps replace_value name gaps df with
      | (df', Raise e) => (df', Raise e)
      | (df', Return _) => fill_items replace_value items' df'
      end
  end.

(** [prepare_data]: the caller's table afterwards, and the outcome of the
    call, which on success is that same table. *)
Definition prepare_data (self : FillGapsPreprocessor) (df : DataFrame)
  : DataFrame * outcome DataFrame :=
  match fill_items (replace_value self) (_gaps self) df with
  | (df', Raise e) => (df', Raise e)
  | (df', Return _) => (df', Return df')
  end.

(** ** The multi-provider loader *)

Section Router.
(** What a provider yields for a tag, and the type of the time bounds,
    which the loader only passes on. *)
Context {S T : Type}.

(** What a provider's batch loader produces when it is consumed: the items
    it yields, then normal exhaustion or an exception of its own. *)
Definition stream : Type := list S * option exn.

(** The provider capability contract. *)
Record Provider : Type := {
  can_handle_tag : string → bool;
  load_dataframes : T → T → list string → stream
}.

(** What consuming the routed sequence does, in order: a provider's batch
    loader is invoked (identified by its position in [providers]), or an
    item is yielded to the consumer. *)
Inductive action : Type :=
| Invoke (provider : nat) (tags : list string)
| Yield (s : S).

Inductive ending : Type :=
| StopIteration
| Raised (e : exn).

(** Modelled from the spec: step 1 of the router's algorithm (section 4.1);
    the function [load_dataframes_from_multiple_providers] is not among the
    sources.  The position of the first provider, counted from [i], whose
    capability predicate accepts the tag. *)
Fixpoint first_capable (i : nat) (providers : list Provider) (tag : string)
  : option nat :=
  match providers with
  | [] => None
  | p :: providers' =>
      if can_handle_tag p tag then Some i
      else first_capable (Datatypes.S i) providers' tag
  end.

(** Modelled from the spec: step 2, the tags that match no provider, in
    input order. *)
Definition unserviceable (providers : list Provider) (tags : list string)
  : list string :=
  List.filter (λ tag, bool_decide (first_capable 0 providers tag = None)) tags.

(** Modelled from the spec: step 3, the tags assigned to the provider at
    position [i], in their original relative order. *)
Definition group (providers : list Provider) (tags : list string) (i : nat)
  : list string :=
  List.filter (λ tag, bool_decide (first_capable 0 providers tag = Some i)) tags.

(** Modelled from the spec: step 4, the groups are dispatched in provider
    priority order, each provider's loader invoked once with its whole
    group and its items yielded in the order it returns them; a failure of
    a loader ends the sequence with that failure.  [all] is the full
    provider list, [rest] what remains of it from position [i] on. *)
Fixpoint dispatch (all : list Provider) (from_ts to_ts : T)
    (tags : list string) (i : nat) (rest : list Provider)
  : list action * ending :=
  match rest with
  | [] => ([], StopIteration)
  | p :: rest' =>
      match group all tags i with
      | [] => dispatch all from_ts to_ts tags (Datatypes.S i) rest'
      | g =>
          let '(items, failure) := load_dataframes p from_ts to_ts g in
          match failure with
          | Some e => (Invoke i g :: map Yield items, Raised e)
          | None =>
              let '(acts, e) := dispatch all from_ts to_ts tags (Datatypes.S i) rest' in
              (Invoke i g :: map Yield items ++ acts, e)
          end
      end
  end.

(** Modelled from the spec: the body of the lazy sequence (steps 1 to 5 and
    the laziness requirement): unserviceable tags fail the operation before
    any provider is invoked. *)
Definition body (providers : list Provider) (from_ts to_ts : T)
    (tags : list string) : list action * ending :=
  match unserviceable providers tags with
  | [] => dispatch providers from_ts to_ts tags 0 providers
  | unmatched => ([], Raised (RoutingError unmatched))
  end.

(** Modelled from the spec: the lazy sequence the router returns (section
    4.1, laziness requirement), as an object: not yet started, holding the
    arguments of the call, or started, holding what is left of its run. *)
Inductive generator : Type :=
| Suspended (providers : list Provider) (from_ts to_ts : T) (tags : list string)
| Started (acts : list action) (e : ending).

(** Modelled from the spec: constructing the routed call.  The result is the
    loader invocations performed by the construction and its outcome. *)
Definition load_dataframes_from_multiple_providers (providers : list Provider)
    (from_ts to_ts : T) (tags : list string)
  : list action * outcome generator :=
  ([], Return (Suspended providers from_ts to_ts tags)).

(** The result of pulling once from the sequence. *)
Inductive pulled : Type :=
| Item (s : S)
| End (e : ending).

(** Modelled from the spec: a started sequence runs up to its next item.
    The result is the actions performed on the way, what the consumer
    gets, and the sequence afterwards; once it has ended, by exhaustion or
    by a failure, it is exhausted. *)
Fixpoint advance (acts : list action) (e : ending)
  : list action * pulled * generator :=
  match acts with
  | [] => ([], End e, Started [] StopIteration)
  | Yield s :: acts' => ([], Item s, Started acts' e)
  | Invoke i g :: acts' =>
      let '(done, r, g') := advance acts' e in (Invoke i g :: done, r, g')
  end.

(** Modelled from the spec: what is left to run of a sequence; for one not
    yet started, its whole body. *)
Definition run (g : generator) : list action * ending :=
  match g with
  | Suspended providers from_ts to_ts tags => body providers from_ts to_ts tags
  | Started acts e => (acts, e)
  end.

(** Modelled from the spec: [next(g)], pulling one item, which is what
    starts a suspended sequence. *)
Definition next (g : generator) : list action * pulled * generator :=
  let '(acts, e) := run g in advance acts e.

(** The items yielded and the loader invocations among some actions. *)
Definition items (acts : list action) : list S :=
  omap (λ a, match a with Yield s => Some s | Invoke _ _ => None end) acts.

Definition invocations (acts : list action) : list (nat * list string) :=
  omap (λ a, match a with Invoke i g => Some (i, g) | Yield _ => None end) acts.

(** Modelled from the spec: [list(g)], consuming the sequence to its end:
    the loader invocations made, the items obtained and the ending. *)
Definition consume (g : generator)
  : list (nat * list string) * list S * ending :=
  let '(acts, e) := run g in (invocations acts, items acts, e).

(** The items the providers give for some loader invocations, one
    invocation after the other. *)
Definition produced (providers : list Provider) (from_ts to_ts : T)
    (invs : list (nat * list string)) : list S :=
  flat_map (λ inv,
              match providers !! inv.1 with
              | Some p => (load_dataframes p from_ts to_ts inv.2).1
              | None => []
              end) invs.

End Router.
Arguments Provider : clear implicits.
Arguments stream : clear implicits.
Arguments action : clear implicits.
Arguments generator : clear implicits.
Arguments pulled : clear implicits.

(** The two providers of [tests/test_data_providers.py]:
    [MockProducerRegExp(re.compile("ab.*"))], which accepts the tags that
    start with ["ab"], and [MockProducerRegExp(re.compile(".*b.*"))], which
    accepts the tags that contain a ["b"].  Each yields, per accepted tag,
    an empty table whose only column is labelled with its pattern, and
    raises [ValueError] at the first tag it does not accept. *)
Fixpoint contains_b (tag : string) : bool :=
  match tag with
  | EmptyString => false
  | String c tag' => bool_decide (c = "b"%char) || contains_b tag'
  end.

Definition starts_with_ab (tag : string) : bool :=
  match tag with
  | String "a"%char (String "b"%char _) => true
  | _ => false
  end.

Definition unable_to_find : string := "Unable to find base path from tag %s".

Fixpoint mock_load (accepts : string → bool) (pattern : string)
    (tag_list : list string) : stream string :=
  match tag_list with
  | [] => ([], None)
  | tag :: tag_list' =>
      if accepts tag then
        let '(items, failure) := mock_load accepts pattern tag_list' in
        (pattern :: items, failure)
      else ([], Some (ValueError unable_to_find [PyStr tag]))
  end.

Definition MockProducerRegExp (accepts : string → bool) (pattern : string)
  : Provider string unit :=
  {| can_handle_tag := accepts;
     load_dataframes := λ _ _ tag_list, mock_load accepts pattern tag_list |}.

Definition ab_producer : Provider string unit :=
  MockProducerRegExp starts_with_ab "ab.*".
Definition containing_b_producer : Provider string unit :=
  MockProducerRegExp contains_b ".*b.*".

(** ** Cell-wise description of a table *)

(** [map_col f idx col] rewrites each cell of a column with the timestamp of
    its row; [map_cells f df] does so in every column, with the column's
    label. *)
Fixpoint map_col (f : Z → pyval → pyval) (idx : list Z) (col : list pyval)
  : list pyval :=
  match idx, col with
  | t :: idx', c :: col' => f t c :: map_col f idx' col'
  | _, _ => col
  end.

Definition map_cells (f : string → Z → pyval → pyval) (df : DataFrame)
  : DataFrame :=
  {| df_index := df_index df;
     df_columns := map (λ c, (c.1, map_col (f c.1) (df_index df) c.2))
                       (df_columns df) |}.

(** Whether some gap recorded under [name] strictly contains [t]. *)
Definition in_gaps (gaps : list gap) (t : Z) : bool :=
  existsb (λ g, between g.1 g.2 t) gaps.

Definition covered (items : gaps_dict) (name : string) (t : Z) : bool :=
  existsb (λ item, bool_decide (name = item.1) && in_gaps item.2 t) items.


(** ** Inputs of the worked examples *)

(** A preprocessor with a threshold of 2 time units and replacement value 0
    whose registry holds what is given. *)
Definition fill_gaps_with (gaps : gaps_dict) : FillGapsPreprocessor :=
  {| gap_size := PyTimedelta 2; replace_value := PyInt 0; _gaps := gaps |}.

(** A series named ["tag"] with samples at 0, 1, 2, 10 and 11. *)
Definition series_0_1_2_10_11 (index_name : option string) : Series :=
  {| name := "tag"; index_name := index_name;
     index := [0; 1; 2; 10; 11];
     values := [PyInt 7; PyInt 7; PyInt 7; PyInt 7; PyInt 7] |}.

(** A merged table with rows at 0, 1, 2, 5, 8, 10 and 11 and the columns
    ["tag"] and ["other"], every cell 7. *)
Definition sevens : list pyval :=
  [PyInt 7; PyInt 7; PyInt 7; PyInt 7; PyInt 7; PyInt 7; PyInt 7].

Definition merged_table : DataFrame :=
  {| df_index := [0; 1; 2; 5; 8; 10; 11];
     df_columns := [("tag"%string, sevens); ("other"%string, sevens)] |}.

(** ** Description of the scanning phase *)

(** The consecutive pairs [(earlier, later)] of an index. *)
Fixpoint consecutive (idx : list Z) : list (Z * Z) :=
  match idx with
  | [] => []
  | earlier :: idx' =>
      match idx' with
      | [] => []
      | later :: _ => (earlier, later) :: consecutive idx'
      end
  end.

(** Whether the difference of a pair strictly exceeds the threshold. *)
Definition wide (g : Z) (p : Z * Z) : bool := g <? p.2 - p.1.

(** The pairs of consecutive timestamps of a series that are further apart
    than the threshold. *)
Definition wide_pairs (g : Z) (value : Series) : list (Z * Z) :=
  List.filter (wide g) (consecutive (index value)).

(** The interval the code records for such a pair. *)
Definition recorded (p : Z * Z) : gap := (p.2, p.2 + (p.2 - p.1)).

(** A series [prepare_series] can scan: its index is named ["Time"], or no
    two consecutive timestamps are further apart than the threshold. *)
Definition scannable (g : Z) (value : Series) : Prop :=
  index_name value = Some "Time"%string ∨ wide_pairs g value = [].

#[global] Instance scannable_dec g value : Decision (scannable g value) :=
  or_dec _ _.

(** A [pd.Timedelta] parser for the examples: it knows ["2ns"] only. *)
Definition Timedelta_2ns (s : string) : outcome Z :=
  if decide (s = "2ns"%string) then Return 2
  else Raise (ValueError "unit abbreviation w/o a number" []).

(** A class registered by other code: its instances keep the keyword
    arguments they were made with. *)
Definition other_cls (cls : string) : constructor :=
  λ _ kwargs, Return (Object cls kwargs).

(** The configuration record [{"type": "fill_gaps", "gap_size": "2ns",
    "replace_value": 0}] and its keyword arguments. *)
Definition fill_gaps_kwargs : gmap string pyval :=
  <["gap_size"%string := PyStr "2ns"]> (<["replace_value"%string := PyInt 0]> ∅).

Definition fill_gaps_record : gmap string pyval :=
  <["type"%string := PyStr "fill_gaps"]> fill_gaps_kwargs.

(** ** Descriptions used by the further properties *)

(** The table in which every cell whose row timestamp lies strictly inside
    a gap that [items] lists under the cell's column label holds [v], and
    every other cell is as in [df]. *)
Definition correct (items : gaps_dict) (v : pyval) (df : DataFrame)
  : DataFrame :=
  map_cells (λ n t c, if covered items n t then v else c) df.

(** Every name of [items] that has a gap is one of the labels [cols]. *)
Definition gap_names_in (cols : list string) (items : gaps_dict) : Prop :=
  Forall (λ item, item.2 ≠ [] → item.1 ∈ cols) items.

#[global] Instance gap_names_in_dec cols items :
  Decision (gap_names_in cols items) :=
  Forall_dec _ _.

(** The keys of a dict after [d[k]] on a [defaultdict]: [k] goes to the end
    if it is new. *)
Definition add_key (keys : list string) (k : string) : list string :=
  if decide (k ∈ keys) then keys else keys ++ [k].

(** The intervals that scanning [series] records under the name [k], in
    the order of the batch. *)
Definition gaps_from (g : Z) (k : string) (series : list Series) : list gap :=
  flat_map (λ value,
              if decide (name value = k) then map recorded (wide_pairs g value)
              else []) series.

(** [d[k].extend(added)] on a [defaultdict(list)] when the extension runs
    to its end: the statement of [prepare_series] that updates the
    registry. *)
Definition getitem_extend (d : gaps_dict) (k : string) (added : list gap)
  : gaps_dict :=
  dict_set (defaultdict_getitem d k).1 k ((defaultdict_getitem d k).2 ++ added).

(** The log record of one registry entry. *)
Definition log_entry (item : string * list gap) : log_record :=
  (length item.2, if decide (1 < length item.2)%nat then "s" else "", item.1)%string.

(** A second series, named ["flow"], with samples at 0, 5 and 6. *)
Definition series_flow : Series :=
  {| name := "flow"; index_name := Some "Time"%string;
     index := [0; 5; 6]; values := [PyInt 1; PyInt 2; PyInt 3] |}.
(** * Properties *)

(** ** Cell-wise view of a table *)

Lemma map_col_length f idx col : length (map_col f idx col) = length col.
Proof.
  revert col; induction idx as [|t idx IH]; intros [|c col]; simpl; auto.
Qed.

Lemma map_col_lookup f idx col i t c :
  idx !! i = Some t → col !! i = Some c →
  map_col f idx col !! i = Some (f t c).
Proof.
  revert col i; induction idx as [|t0 idx IH]; intros [|c0 col] [|i]; simpl;
    try discriminate.
  - intros [= ->] [= ->]. reflexivity.
  - apply IH.
Qed.

Lemma map_col_ext f g idx col :
  (∀ t c, f t c = g t c) → map_col f idx col = map_col g idx col.
Proof.
  intros E. revert col; induction idx as [|t idx IH]; intros [|c col]; simpl;
    f_equal; auto.
Qed.

Lemma map_col_compose f g idx col :
  map_col g idx (map_col f idx col) = map_col (λ t c, g t (f t c)) idx col.
Proof.
  revert col; induction idx as [|t idx IH]; intros [|c col]; simpl;
    f_equal; auto.
Qed.

Lemma map_col_id idx col : map_col (λ _ c, c) idx col = col.
Proof.
  revert col; induction idx as [|t idx IH]; intros [|c col]; simpl;
    f_equal; auto.
Qed.

Lemma map_cells_ext f g df :
  (∀ n t c, f n t c = g n t c) → map_cells f df = map_cells g df.
Proof.
  intros E. unfold map_cells. f_equal. apply map_ext. intros [n col]. simpl.
  f_equal. apply map_col_ext. auto.
Qed.

Lemma map_cells_compose f g df :
  map_cells g (map_cells f df) = map_cells (λ n t c, g n t (f n t c)) df.
Proof.
  unfold map_cells. simpl. f_equal. rewrite map_map. apply map_ext.
  intros [n col]. simpl. f_equal. apply map_col_compose.
Qed.

Lemma map_cells_id df : map_cells (λ _ _ c, c) df = df.
Proof.
  destruct df as [idx cols]. unfold map_cells. simpl. f_equal.
  induction cols as [|[n col] cols IH]; simpl; [reflexivity|].
  rewrite map_col_id. f_equal. exact IH.
Qed.

Lemma columns_map_cells f df : columns (map_cells f df) = columns df.
Proof.
  unfold columns, map_cells. simpl. rewrite <- list_fmap_compose.
  apply list_fmap_ext. intros _ [n col] _. reflexivity.
Qed.

Lemma assign_mask f v idx col :
  assign (map f idx) col v = map_col (λ t c, if f t then v else c) idx col.
Proof.
  revert col; induction idx as [|t idx IH]; intros [|c col]; simpl;
    f_equal; auto.
Qed.

Lemma zip_with_fmap_diag {A B C} (f : B → A → C) (g : A → B) (l : list A) :
  zip_with f (map g l) l = map (λ a, f (g a) a) l.
Proof. induction l; simpl; f_equal; auto. Qed.

(** One assignment through [iloc], cell by cell. *)
Lemma iloc_setitem_cells df name gap_start gap_end v :
  iloc_setitem df (index_mask (df_index df) gap_start gap_end)
    (map (λ c, bool_decide (c = name)) (columns df)) v
  = map_cells (λ n t c,
      if bool_decide (n = name) && between gap_start gap_end t then v else c) df.
Proof.
  unfold iloc_setitem, map_cells, columns, index_mask. f_equal.
  change (@fmap list _ _ _ fst (df_columns df)) with (map fst (df_columns df)).
  rewrite map_map, zip_with_fmap_diag. apply map_ext. intros [n col]. simpl.
  rewrite assign_mask. destruct (bool_decide (n = name)); simpl.
  - reflexivity.
  - rewrite map_col_id. reflexivity.
Qed.

Lemma get_loc_Return cols name :
  name ∈ cols →
  get_loc cols name = Return (map (λ c, bool_decide (c = name)) cols).
Proof.
  intros Hin. unfold get_loc.
  replace (existsb id (map (λ c, bool_decide (c = name)) cols)) with true;
    [reflexivity|].
  symmetry. apply existsb_exists. exists true. split; [|reflexivity].
  apply in_map_iff. exists name. split.
  - apply bool_decide_eq_true. reflexivity.
  - apply list_elem_of_In. exact Hin.
Qed.

Lemma get_loc_Raise cols name :
  name ∉ cols → get_loc cols name = Raise (KeyError name).
Proof.
  intros Hnin. unfold get_loc.
  destruct (existsb id (map (λ c, bool_decide (c = name)) cols)) eqn:E;
    [|reflexivity].
  apply existsb_exists in E as (b & Hb & Hid). apply in_map_iff in Hb as (c & Hc & Hin).
  unfold id in Hid. subst b. apply bool_decide_eq_true in Hid. subst c.
  exfalso. apply Hnin. apply list_elem_of_In. exact Hin.
Qed.

(** ** The correction phase *)

Lemma in_gaps_cons g gaps t :
  in_gaps (g :: gaps) t = between g.1 g.2 t || in_gaps gaps t.
Proof. reflexivity. Qed.

Lemma covered_cons item items name t :
  covered (item :: items) name t
  = bool_decide (name = item.1) && in_gaps item.2 t || covered items name t.
Proof. reflexivity. Qed.

Lemma fill_gaps_cells v name gaps df :
  (gaps ≠ [] → name ∈ columns df) →
  fill_gaps v name gaps df
  = (map_cells (λ n t c,
       if bool_decide (n = name) && in_gaps gaps t then v else c) df,
     Return ()).
Proof.
  revert df. induction gaps as [|[gap_start gap_end] gaps IH]; intros df Hin.
  - simpl. f_equal. symmetry. rewrite <- (map_cells_id df) at 2.
    apply map_cells_ext. intros n t c. rewrite andb_false_r. reflexivity.
  - assert (Hc : name ∈ columns df) by (apply Hin; discriminate).
    cbn [fill_gaps]. rewrite (get_loc_Return _ _ Hc), iloc_setitem_cells.
    rewrite IH by (intros _; rewrite columns_map_cells; exact Hc).
    f_equal. rewrite map_cells_compose. apply map_cells_ext. intros n t c.
    rewrite in_gaps_cons. cbn [fst snd].
    destruct (bool_decide (n = name)), (between gap_start gap_end t),
      (in_gaps gaps t); reflexivity.
Qed.

Lemma fill_gaps_missing v name gap gaps df :
  name ∉ columns df →
  fill_gaps v name (gap :: gaps) df = (df, Raise (KeyError name)).
Proof.
  intros Hnin. destruct gap as [gap_start gap_end]. cbn [fill_gaps].
  rewrite (get_loc_Raise _ _ Hnin). reflexivity.
Qed.

Lemma fill_items_cells v items df :
  (∀ name gaps, (name, gaps) ∈ items → gaps ≠ [] → name ∈ columns df) →
  fill_items v items df
  = (map_cells (λ n t c, if covered items n t then v else c) df, Return ()).
Proof.
  revert df. induction items as [|[name gaps] items IH]; intros df Hin.
  - simpl. f_equal. symmetry. apply map_cells_id.
  - cbn [fill_items]. rewrite fill_gaps_cells
      by (apply Hin; apply list_elem_of_here).
    rewrite IH.
    + f_equal. rewrite map_cells_compose. apply map_cells_ext. intros n t c.
      rewrite covered_cons. cbn [fst snd].
      destruct (bool_decide (n = name) && in_gaps gaps t),
        (covered items n t); reflexivity.
    + intros n gs Hel Hne. rewrite columns_map_cells.
      apply (Hin n gs); [apply list_elem_of_further; exact Hel | exact Hne].
Qed.

Lemma fill_items_columns v items df :
  columns (fill_items v items df).1 = columns df.
Proof.
  revert df. induction items as [|[name gaps] items IH]; intros df;
    [reflexivity|].
  cbn [fill_items].
  assert (Hg : ∀ gs d, columns (fill_gaps v name gs d).1 = columns d).
  { induction gs as [|[a b] gs IHg]; intros d; [reflexivity|].
    cbn [fill_gaps]. destruct (decide (name ∈ columns d)) as [Hc|Hc].
    - rewrite (get_loc_Return _ _ Hc), iloc_setitem_cells, IHg.
      apply columns_map_cells.
    - rewrite (get_loc_Raise _ _ Hc). reflexivity. }
  specialize (Hg gaps df).
  destruct (fill_gaps v name gaps df) as [df' [[]|e]]; simpl in *.
  - rewrite IH. exact Hg.
  - exact Hg.
Qed.

(** The first registry entry that has a gap and no column stops the loop
    with a [KeyError]. *)
Lemma fill_items_missing v items df name gaps :
  (name, gaps) ∈ items → gaps ≠ [] → name ∉ columns df →
  ∃ name', (name' ∉ columns df) ∧
    (fill_items v items df).2 = Raise (KeyError name').
Proof.
  revert df. induction items as [|[n gs] items IH]; intros df Hel Hne Hnin.
  - inversion Hel.
  - cbn [fill_items].
    destruct (decide (gs ≠ [] ∧ n ∉ columns df)) as [[Hgs Hn]|Hok].
    + destruct gs as [|g gs]; [congruence|].
      rewrite (fill_gaps_missing _ _ _ _ _ Hn). simpl. eauto.
    + assert (Hpre : gs ≠ [] → n ∈ columns df).
      { intros Hgs. destruct (decide (n ∈ columns df)); [assumption|].
        exfalso. apply Hok. split; assumption. }
      rewrite (fill_gaps_cells _ _ _ _ Hpre).
      apply elem_of_cons in Hel as [Heq|Hel].
      { injection Heq as -> ->. exfalso. apply Hnin, Hpre, Hne. }
      destruct (IH (map_cells (λ n0 t c,
                  if bool_decide (n0 = n) && in_gaps gs t then v else c) df))
        as (name' & Hn' & Hr); [assumption..| |].
      { rewrite columns_map_cells. exact Hnin. }
      rewrite columns_map_cells in Hn'. exists name'. split; [exact Hn'|].
      destruct (fill_items v items _) as [df' [[]|e]]; simpl in *;
        [discriminate | exact Hr].
Qed.

Lemma in_gaps_spec gaps t :
  in_gaps gaps t = true ↔
  ∃ gap_start gap_end, (gap_start, gap_end) ∈ gaps ∧ gap_start < t < gap_end.
Proof.
  unfold in_gaps. rewrite existsb_exists. split.
  - intros ([a b] & Hin & Hb). exists a, b. split.
    + apply list_elem_of_In. exact Hin.
    + unfold between in Hb. simpl in Hb. lia.
  - intros (a & b & Hin & Hb). exists (a, b). split.
    + apply list_elem_of_In. exact Hin.
    + unfold between. simpl. lia.
Qed.

Lemma covered_spec items name t :
  covered items name t = true ↔
  ∃ gaps gap_start gap_end,
    (name, gaps) ∈ items ∧ (gap_start, gap_end) ∈ gaps ∧
    gap_start < t < gap_end.
Proof.
  unfold covered. rewrite existsb_exists. split.
  - intros ([n gaps] & Hin & Hb). simpl in Hb.
    apply andb_true_iff in Hb as [Hn Hg]. apply bool_decide_eq_true in Hn.
    subst name. apply in_gaps_spec in Hg as (a & b & Hg & Hlt).
    exists gaps, a, b. split; [apply list_elem_of_In; exact Hin | auto].
  - intros (gaps & a & b & Hin & Hg & Hlt). exists (name, gaps). split.
    + apply list_elem_of_In. exact Hin.
    + simpl. apply andb_true_iff. split; [apply bool_decide_eq_true; reflexivity|].
      apply in_gaps_spec. eauto.
Qed.

Lemma map_cells_column f df j name col :
  df_columns df !! j = Some (name, col) →
  df_columns (map_cells f df) !! j
  = Some (name, map_col (f name) (df_index df) col).
Proof.
  intros Hj. unfold map_cells. cbn [df_columns].
  change (map ?g (df_columns df)) with (g <$> df_columns df).
  rewrite list_lookup_fmap, Hj. reflexivity.
Qed.

Lemma prepare_data_cells self df :
  (∀ name gaps, (name, gaps) ∈ _gaps self → gaps ≠ [] → name ∈ columns df) →
  let df' := map_cells (λ n t c,
               if covered (_gaps self) n t then replace_value self else c) df in
  prepare_data self df = (df', Return df').
Proof.
  intros H. unfold prepare_data. rewrite (fill_items_cells _ _ _ H).
  reflexivity.
Qed.

(** C3.  When every name with a recorded gap is a column of the table,
    [prepare_data] returns the table with the same rows and columns, and
    each cell is the replacement value if its row's timestamp lies strictly
    between the two ends of some gap recorded under its column's name, and
    is unchanged otherwise; so rows at an end of a gap and columns without
    recorded gaps keep their cells. *)
Theorem C3_prepare_data_overwrites_strictly_inside
    (self : FillGapsPreprocessor) (df : DataFrame) :
  (∀ name gaps, (name, gaps) ∈ _gaps self → gaps ≠ [] → name ∈ columns df) →
  ∃ df', prepare_data self df = (df', Return df') ∧
    df_index df' = df_index df ∧ columns df' = columns df ∧
    ∀ j name col, df_columns df !! j = Some (name, col) →
      ∃ col', df_columns df' !! j = Some (name, col') ∧
        length col' = length col ∧
        ∀ i t c, df_index df !! i = Some t → col !! i = Some c →
          ((∃ gaps gap_start gap_end,
               (name, gaps) ∈ _gaps self ∧ (gap_start, gap_end) ∈ gaps ∧
               gap_start < t < gap_end) →
           col' !! i = Some (replace_value self)) ∧
          (¬ (∃ gaps gap_start gap_end,
               (name, gaps) ∈ _gaps self ∧ (gap_start, gap_end) ∈ gaps ∧
               gap_start < t < gap_end) →
           col' !! i = Some c).
Proof.
  intros H. eexists. split; [apply (prepare_data_cells self df H)|].
  split; [reflexivity|]. split; [apply columns_map_cells|].
  intros j name col Hj. eexists. split; [apply map_cells_column, Hj|].
  split; [apply map_col_length|].
  intros i t c Ht Hc. rewrite (map_col_lookup _ _ _ _ _ _ Ht Hc).
  split; intros Hcov.
  - apply covered_spec in Hcov. rewrite Hcov. reflexivity.
  - destruct (covered (_gaps self) name t) eqn:E; [|reflexivity].
    exfalso. apply Hcov, covered_spec, E.
Qed.

Lemma example_gap_present :
  ∀ name gaps, (name, gaps) ∈ _gaps (fill_gaps_with [("tag"%string, [(2, 10)])]) →
    gaps ≠ [] → name ∈ columns merged_table.
Proof.
  intros name gaps Hel _. apply list_elem_of_singleton in Hel.
  injection Hel as -> ->. apply list_elem_of_here.
Qed.

(** The gap correction example: with the interval (2,10) recorded for
    ["tag"], only the rows at 5 and 8 of that column become 0. *)
Lemma C3_witness :
  ∃ df', prepare_data (fill_gaps_with [("tag"%string, [(2, 10)])]) merged_table
         = (df', Return df') ∧
    df_columns df' =
      [("tag"%string,
        [PyInt 7; PyInt 7; PyInt 7; PyInt 0; PyInt 0; PyInt 7; PyInt 7]);
       ("other"%string, sevens)].
Proof.
  destruct (C3_prepare_data_overwrites_strictly_inside
              (fill_gaps_with [("tag"%string, [(2, 10)])]) merged_table
              example_gap_present) as (df' & Hrun & _).
  exists df'. split; [exact Hrun|].
  vm_compute in Hrun. injection Hrun as <-. reflexivity.
Defined.

(** C8.  [reset] empties the gap registry and keeps the threshold and the
    replacement value; [prepare_data] on the object it leaves returns any
    table with every cell as it was, whatever was recorded before. *)
Theorem C8_reset_then_prepare_data_is_identity
    (self : FillGapsPreprocessor) (df : DataFrame) :
  _gaps (reset self) = [] ∧
  gap_size (reset self) = gap_size self ∧
  replace_value (reset self) = replace_value self ∧
  prepare_data (reset self) df = (df, Return df).
Proof. repeat split. Qed.

(** C2 (as amended).  A registry name that is not a column is passed over
    only while its list of gaps is empty: if every name missing from the
    table has no recorded gap, [prepare_data] returns the table it leaves;
    if some missing name has a recorded gap, [prepare_data] raises
    [KeyError] for a name that is not a column. *)
Theorem C2_missing_column_raises_unless_no_gaps
    (self : FillGapsPreprocessor) (df : DataFrame) :
  ((∀ name gaps, (name, gaps) ∈ _gaps self → name ∉ columns df → gaps = []) →
   (prepare_data self df).2 = Return (prepare_data self df).1) ∧
  (∀ name gaps, (name, gaps) ∈ _gaps self → name ∉ columns df → gaps ≠ [] →
   ∃ name', (name' ∉ columns df) ∧
     (prepare_data self df).2 = Raise (KeyError name')).
Proof.
  split.
  - intros H. rewrite prepare_data_cells; [reflexivity|].
    intros name gaps Hel Hne. destruct (decide (name ∈ columns df)); [assumption|].
    exfalso. apply Hne. eapply H; eassumption.
  - intros name gaps Hel Hnin Hne.
    destruct (fill_items_missing (replace_value self) _ df name gaps Hel Hne Hnin)
      as (name' & Hn' & Hr).
    exists name'. split; [exact Hn'|]. unfold prepare_data.
    destruct (fill_items _ _ df) as [df' [[]|e]]; simpl in *;
      [discriminate | injection Hr as ->; reflexivity].
Qed.

(** The claim as stated fails: with the gap (1,2) recorded under ["zz"],
    which is not a column of the table, [prepare_data] raises. *)
Lemma C2_counterexample :
  let self := fill_gaps_with [("tag"%string, [(2, 10)]); ("zz"%string, [(1, 2)])] in
  ("zz"%string, [(1, 2)]) ∈ _gaps self ∧
  ("zz"%string ∉ columns merged_table) ∧
  (prepare_data self merged_table).2 = Raise (KeyError "zz").
Proof.
  split; [|split].
  - apply list_elem_of_further, list_elem_of_here.
  - intros H. apply list_elem_of_In in H. vm_compute in H. intuition discriminate.
  - reflexivity.
Qed.

Lemma C2_witness :
  ∃ name', (name' ∉ columns merged_table) ∧
    (prepare_data
       (fill_gaps_with [("tag"%string, [(2, 10)]); ("zz"%string, [(1, 2)])])
       merged_table).2 = Raise (KeyError name').
Proof.
  apply (proj2 (C2_missing_column_raises_unless_no_gaps
                  (fill_gaps_with [("tag"%string, [(2, 10)]); ("zz"%string, [(1, 2)])])
                  merged_table) "zz"%string [(1, 2)]).
  - apply list_elem_of_further, list_elem_of_here.
  - intros H. apply list_elem_of_In in H. vm_compute in H. intuition discriminate.
  - discriminate.
Defined.

(** ** The scanning phase *)

Lemma select_diff_from label g prev idx :
  omap (select label g) (zip idx (diff_from prev idx))
  = map (λ p, {| time_label := label; time := p.2; Diff := p.2 - p.1 |})
        (List.filter (wide g) (consecutive (prev :: idx))).
Proof.
  revert prev. induction idx as [|t idx IH]; intros prev; [reflexivity|].
  cbn [diff_from zip zip_with omap list_omap consecutive List.filter].
  rewrite IH. unfold select, wide. cbn [fst snd].
  destruct (g <? t - prev); reflexivity.
Qed.

Lemma filtered_df_rows g value :
  filtered_df (PyTimedelta g) value
  = Return (map (λ p, {| time_label := index_name value; time := p.2;
                         Diff := p.2 - p.1 |})
                (wide_pairs g value)).
Proof.
  unfold filtered_df, wide_pairs, concat_diff, diff. f_equal.
  destruct (index value) as [|t idx]; [reflexivity|].
  cbn [zip zip_with omap list_omap]. unfold select at 1. cbn [snd].
  apply select_diff_from.
Qed.

Lemma gap_of_row_Time (r : row) :
  time_label r = Some "Time"%string →
  gap_of_row r = Return (time r, time r + Diff r).
Proof.
  intros H. unfold gap_of_row, row_getitem. rewrite H.
  repeat (case_decide; cbn); first [reflexivity | congruence].
Qed.

Lemma gap_of_row_other (r : row) :
  time_label r ≠ Some "Time"%string →
  gap_of_row r = Raise (KeyError "Time").
Proof.
  intros H. unfold gap_of_row, row_getitem.
  repeat (case_decide; cbn); first [reflexivity | congruence].
Qed.

Lemma extend_Time label l pairs :
  label = Some "Time"%string →
  extend l (map (λ p, {| time_label := label; time := p.2;
                         Diff := p.2 - p.1 |}) pairs)
  = (l ++ map recorded pairs, Return ()).
Proof.
  intros ->. revert l. induction pairs as [|p pairs IH]; intros l.
  - simpl. rewrite app_nil_r. reflexivity.
  - cbn [map extend]. rewrite gap_of_row_Time by reflexivity.
    rewrite IH, <- app_assoc. reflexivity.
Qed.

Lemma extend_other label l p pairs :
  label ≠ Some "Time"%string →
  extend l (map (λ p, {| time_label := label; time := p.2;
                         Diff := p.2 - p.1 |}) (p :: pairs))
  = (l, Raise (KeyError "Time")).
Proof.
  intros H. cbn [map extend]. rewrite gap_of_row_other by exact H.
  reflexivity.
Qed.

(** One round of the loop on a series that can be scanned. *)
Lemma scan_cons_scannable g gaps result value series :
  scannable g value →
  scan (PyTimedelta g) gaps result (value :: series)
  = scan (PyTimedelta g)
      (dict_set (defaultdict_getitem gaps (name value)).1 (name value)
         ((defaultdict_getitem gaps (name value)).2
            ++ map recorded (wide_pairs g value)))
      (result ++ [value]) series.
Proof.
  intros Hs. cbn [scan]. rewrite filtered_df_rows.
  destruct (defaultdict_getitem gaps (name value)) as [gaps1 l]. cbn [fst snd].
  destruct Hs as [Ht|He].
  - rewrite (extend_Time _ _ _ Ht). reflexivity.
  - rewrite He. simpl. rewrite app_nil_r. reflexivity.
Qed.

(** One round of the loop on a series that cannot. *)
Lemma scan_cons_unscannable g gaps result value series :
  ¬ scannable g value →
  scan (PyTimedelta g) gaps result (value :: series)
  = (dict_set (defaultdict_getitem gaps (name value)).1 (name value)
       (defaultdict_getitem gaps (name value)).2,
     Raise (KeyError "Time")).
Proof.
  intros Hs. cbn [scan]. rewrite filtered_df_rows.
  destruct (defaultdict_getitem gaps (name value)) as [gaps1 l]. cbn [fst snd].
  destruct (wide_pairs g value) as [|p pairs] eqn:E.
  - exfalso. apply Hs. right. exact E.
  - rewrite extend_other; [reflexivity|].
    intros Ht. apply Hs. left. exact Ht.
Qed.

Lemma scan_Return gap_size gaps result series gaps' r :
  scan gap_size gaps result series = (gaps', Return r) →
  r = result ++ series.
Proof.
  revert gaps result. induction series as [|value series IH];
    intros gaps result H.
  - simpl in H. injection H as _ <-. rewrite app_nil_r. reflexivity.
  - cbn [scan] in H. destruct (filtered_df gap_size value) as [rows|e];
      [|discriminate].
    destruct (defaultdict_getitem gaps (name value)) as [gaps1 l].
    destruct (extend l rows) as [l' [[]|e]]; [|discriminate].
    apply IH in H. rewrite H, <- app_assoc. reflexivity.
Qed.

Lemma scan_scannable g gaps result series :
  Forall (scannable g) series →
  (scan (PyTimedelta g) gaps result series).2 = Return (result ++ series).
Proof.
  intros H. revert gaps result.
  induction H as [|value series Hv _ IH]; intros gaps result.
  - simpl. rewrite app_nil_r. reflexivity.
  - rewrite (scan_cons_scannable _ _ _ _ _ Hv), IH, <- app_assoc. reflexivity.
Qed.

Lemma scan_unscannable g gaps result series :
  Exists (λ value, ¬ scannable g value) series →
  (scan (PyTimedelta g) gaps result series).2 = Raise (KeyError "Time").
Proof.
  revert gaps result. induction series as [|value series IH];
    intros gaps result H.
  - inversion H.
  - destruct (decide (scannable g value)) as [Hs|Hs].
    + rewrite (scan_cons_scannable _ _ _ _ _ Hs). apply IH.
      inversion H; subst; [contradiction | assumption].
    + rewrite (scan_cons_unscannable _ _ _ _ _ Hs). reflexivity.
Qed.

Lemma prepare_series_outcome self series :
  (prepare_series self series).2
  = (scan (gap_size self) (_gaps self) [] series).2.
Proof.
  unfold prepare_series.
  destruct (scan _ _ _ _) as [gaps [r|e]]; reflexivity.
Qed.

Lemma prepare_series_gaps self series :
  _gaps (prepare_series self series).1.1
  = (scan (gap_size self) (_gaps self) [] series).1.
Proof.
  unfold prepare_series.
  destruct (scan _ _ _ _) as [gaps [r|e]]; reflexivity.
Qed.

Lemma prepare_series_Return self series r :
  (prepare_series self series).2 = Return r → r = series.
Proof.
  rewrite prepare_series_outcome.
  destruct (scan _ _ _ _) as [gaps' out] eqn:E. simpl. intros ->.
  apply scan_Return in E. exact E.
Qed.

Lemma dict_get_set d key v : dict_get (dict_set d key v) key = Some v.
Proof.
  induction d as [|[k w] d IH]; simpl.
  - rewrite decide_True by reflexivity. reflexivity.
  - destruct (decide (k = key)) as [->|Hne]; simpl.
    + rewrite decide_True by reflexivity. reflexivity.
    + rewrite decide_False by exact Hne. exact IH.
Qed.

Lemma dict_get_app_fresh d key v :
  dict_get d key = None → dict_get (d ++ [(key, v)]) key = Some v.
Proof.
  induction d as [|[k w] d IH]; simpl; intros H.
  - rewrite decide_True by reflexivity. reflexivity.
  - destruct (decide (k = key)); [discriminate|]. apply IH, H.
Qed.

(** What a single series named ["Time"]-indexed adds to the registry: for
    each pair of consecutive timestamps further apart than the threshold,
    the interval that starts at the later timestamp. *)
Lemma scan_one_records g gaps value :
  scannable g value →
  dict_get (scan (PyTimedelta g) gaps [] [value]).1 (name value)
  = Some (default [] (dict_get gaps (name value))
          ++ map recorded (wide_pairs g value)).
Proof.
  intros Hs. rewrite (scan_cons_scannable _ _ _ _ _ Hs). cbn [scan fst].
  rewrite dict_get_set. unfold defaultdict_getitem.
  destruct (dict_get gaps (name value)); reflexivity.
Qed.

(** C1 (the code at the example of the claim).  For the series with
    samples at 0, 1, 2, 10, 11 and threshold 2, [prepare_series] records
    for the series' name the single interval (10, 18), which starts at the
    later timestamp of the pair, and not the interval (2, 10). *)
Theorem C1_example_records_10_18_not_2_10 :
  let self' := (prepare_series (fill_gaps_with [])
                  [series_0_1_2_10_11 (Some "Time"%string)]).1.1 in
  _gaps self' = [("tag"%string, [(10, 18)])] ∧
  _gaps self' ≠ [("tag"%string, [(2, 10)])].
Proof. split; [reflexivity | discriminate]. Qed.

(** C9.  When the threshold is a timedelta and every series of the batch
    can be scanned (its index is named ["Time"], or it has no pair of
    consecutive timestamps further apart than the threshold),
    [prepare_series] returns the batch: the same series, with the same
    values, in the same order. *)
Theorem C9_prepare_series_returns_batch
    (self : FillGapsPreprocessor) (g : Z) (series : list Series) :
  gap_size self = PyTimedelta g →
  Forall (scannable g) series →
  (prepare_series self series).2 = Return series.
Proof.
  intros Hg Hs. rewrite prepare_series_outcome, Hg.
  apply (scan_scannable g (_gaps self) [] series Hs).
Qed.

Lemma C9_witness :
  (prepare_series (fill_gaps_with [])
     [series_0_1_2_10_11 (Some "Time"%string); series_0_1_2_10_11 None]).2
  = Raise (KeyError "Time") ∧
  (prepare_series (fill_gaps_with [("old"%string, [(3, 9)])])
     [series_0_1_2_10_11 (Some "Time"%string)]).2
  = Return [series_0_1_2_10_11 (Some "Time"%string)].
Proof.
  split; [reflexivity|].
  apply (C9_prepare_series_returns_batch
           (fill_gaps_with [("old"%string, [(3, 9)])]) 2
           [series_0_1_2_10_11 (Some "Time"%string)]).
  - reflexivity.
  - repeat constructor.
Defined.

(** C10.  When the threshold is a timedelta and the batch holds a series
    that has a pair of consecutive timestamps further apart than the
    threshold and whose index is not named ["Time"], [prepare_series]
    raises [KeyError] for the key ["Time"]; when that series is the whole
    batch, the list of gaps kept under its name is what it was before the
    call (empty if the name was new), so the gap is not recorded. *)
Theorem C10_index_must_be_named_Time
    (self : FillGapsPreprocessor) (g : Z) (series : list Series)
    (value : Series) :
  gap_size self = PyTimedelta g →
  value ∈ series →
  index_name value ≠ Some "Time"%string →
  wide_pairs g value ≠ [] →
  (prepare_series self series).2 = Raise (KeyError "Time") ∧
  (series = [value] →
   dict_get (_gaps (prepare_series self series).1.1) (name value)
   = Some (default [] (dict_get (_gaps self) (name value)))).
Proof.
  intros Hg Hin Hname Hwide.
  assert (Hns : ¬ scannable g value) by (intros [H|H]; contradiction).
  split.
  - rewrite prepare_series_outcome, Hg. apply scan_unscannable.
    apply Exists_exists. exists value. split; [exact Hin | exact Hns].
  - intros ->. rewrite prepare_series_gaps, Hg.
    rewrite (scan_cons_unscannable _ _ _ _ _ Hns). cbn [fst].
    rewrite dict_get_set. unfold defaultdict_getitem.
    destruct (dict_get (_gaps self) (name value)); reflexivity.
Qed.

Lemma C10_witness :
  (prepare_series (fill_gaps_with []) [series_0_1_2_10_11 (Some "time"%string)]).2
  = Raise (KeyError "Time") ∧
  (prepare_series (fill_gaps_with []) [series_0_1_2_10_11 None]).2
  = Raise (KeyError "Time").
Proof.
  split.
  - apply (C10_index_must_be_named_Time (fill_gaps_with []) 2
             [series_0_1_2_10_11 (Some "time"%string)]
             (series_0_1_2_10_11 (Some "time"%string))).
    + reflexivity.
    + apply list_elem_of_here.
    + discriminate.
    + discriminate.
  - reflexivity.
Defined.

(** ** Registry and factory *)

(** C6.  Registering under a name that is already present raises the
    naming-conflict [ValueError] and leaves the registry as it was, so
    that creating with that name still calls the class registered first;
    creating with a name that is not present raises the not-found
    [ValueError]. *)
Theorem C6_second_registration_fails_first_stays
    (_types : gmap string constructor) (name : string) (cls : constructor)
    (args : list pyval) (kwargs : gmap string pyval) :
  (∀ first : constructor, _types !! name = Some first →
     preprocessor _types name cls
     = (_types, Raise (ValueError already_added [PyStr name])) ∧
     create_preprocessor (preprocessor _types name cls).1 (PyStr name)
       args kwargs = first args kwargs) ∧
  (_types !! name = None →
     create_preprocessor _types (PyStr name) args kwargs
     = Raise (ValueError cant_find [PyStr name])).
Proof.
  split.
  - intros first H. unfold preprocessor. rewrite H. split; [reflexivity|].
    unfold create_preprocessor, types_get. cbn [fst]. rewrite H. reflexivity.
  - intros H. unfold create_preprocessor, types_get. rewrite H. reflexivity.
Qed.

Lemma C6_witness :
  (preprocessor (module_types Timedelta_2ns) "fill_gaps" (other_cls "Other")).2
  = Raise (ValueError already_added [PyStr "fill_gaps"]) ∧
  create_preprocessor
    (preprocessor (module_types Timedelta_2ns) "fill_gaps" (other_cls "Other")).1
    (PyStr "fill_gaps") [] fill_gaps_kwargs
  = Return (FillGaps (fill_gaps_with [])) ∧
  create_preprocessor (module_types Timedelta_2ns) (PyStr "fill_holes") []
    fill_gaps_kwargs
  = Raise (ValueError cant_find [PyStr "fill_holes"]).
Proof.
  pose proof (C6_second_registration_fails_first_stays
                (module_types Timedelta_2ns) "fill_gaps" (other_cls "Other")
                [] fill_gaps_kwargs) as [Hdup _].
  destruct (Hdup (FillGapsPreprocessor_cls Timedelta_2ns)) as [H1 H2].
  { reflexivity. }
  split; [rewrite H1; reflexivity|]. split.
  - rewrite H2. vm_compute. reflexivity.
  - apply (C6_second_registration_fails_first_stays
             (module_types Timedelta_2ns) "fill_holes" (other_cls "Other")
             [] fill_gaps_kwargs). reflexivity.
Defined.

Lemma deref_lookup (h : heap) l d : h !! l = Some d → deref h l = d.
Proof. intros H. unfold deref. apply lookup_total_correct. exact H. Qed.

Lemma fresh_not_allocated (h : heap) l d :
  h !! l = Some d → fresh (dom h) ≠ l.
Proof.
  intros H E. apply (is_fresh (dom h)). rewrite E.
  apply elem_of_dom. eauto.
Qed.

(** [normalize_preprocessor] on a dict with a ["type"] entry: the factory
    is called with the other entries, and every dict that existed before
    the call is as it was. *)
Lemma normalize_preprocessor_Dict _types (h : heap) l d preprocessor_type :
  h !! l = Some d → d !! "type"%string = Some preprocessor_type →
  ∃ h', normalize_preprocessor _types h (Dict l)
        = (h', Inst <$> create_preprocessor _types preprocessor_type []
                          (delete "type"%string d)) ∧
    ∀ l0, is_Some (h !! l0) → h' !! l0 = h !! l0.
Proof.
  intros Hl Ht. unfold normalize_preprocessor, deepcopy, dict_pop.
  rewrite (deref_lookup _ _ _ Hl), Ht.
  set (l' := fresh (dom h)).
  assert (Hd1 : deref (<[l' := d]> h) l' = d).
  { apply deref_lookup, lookup_insert_eq. }
  rewrite Hd1, Ht.
  assert (Hd2 : deref (<[l' := delete "type"%string d]> (<[l' := d]> h)) l'
                = delete "type"%string d).
  { apply deref_lookup, lookup_insert_eq. }
  rewrite Hd2. eexists. split; [reflexivity|].
  intros l0 [d0 H0].
  assert (l' ≠ l0) by (eapply fresh_not_allocated; exact H0).
  rewrite !lookup_insert_ne by assumption. reflexivity.
Qed.

(** C7.  For a record that holds ["type": T] and the entries [kwargs]
    (which have no ["type"] of their own), [normalize_preprocessor] gives
    what [create_preprocessor T] gives for [kwargs], and the record, like
    every dict that existed before the call, still has all its entries; a
    value that is not a dict comes back as it is, the heap untouched; a
    record without ["type"] makes it raise the configuration
    [ValueError]. *)
Theorem C7_normalize_agrees_with_create
    (_types : gmap string constructor) (h : heap) (l : loc) :
  (∀ T kwargs,
     h !! l = Some (<["type"%string := PyStr T]> kwargs) →
     kwargs !! "type"%string = None →
     ∃ h', normalize_preprocessor _types h (Dict l)
           = (h', Inst <$> create_preprocessor _types (PyStr T) [] kwargs) ∧
       h' !! l = Some (<["type"%string := PyStr T]> kwargs) ∧
       ∀ l0, is_Some (h !! l0) → h' !! l0 = h !! l0) ∧
  (∀ i, normalize_preprocessor _types h (Inst i) = (h, Return (Inst i))) ∧
  (∀ v, normalize_preprocessor _types h (Scalar v) = (h, Return (Scalar v))) ∧
  (∀ d, h !! l = Some d → d !! "type"%string = None →
     normalize_preprocessor _types h (Dict l)
     = (h, Raise (ValueError type_is_empty []))).
Proof.
  split; [|split; [|split]].
  - intros T kwargs Hl Hk.
    destruct (normalize_preprocessor_Dict _types h l _ (PyStr T) Hl)
      as (h' & Hrun & Hsame).
    { apply lookup_insert_eq. }
    exists h'. rewrite delete_insert_id in Hrun by exact Hk.
    split; [exact Hrun|]. split; [|exact Hsame].
    rewrite Hsame by eauto. exact Hl.
  - reflexivity.
  - reflexivity.
  - intros d Hl Ht. unfold normalize_preprocessor.
    rewrite (deref_lookup _ _ _ Hl), Ht. reflexivity.
Qed.

Lemma C7_witness :
  ∃ h', normalize_preprocessor (module_types Timedelta_2ns)
          {[ 1%positive := fill_gaps_record ]} (Dict 1%positive)
        = (h', Return (Inst (FillGaps (fill_gaps_with [])))) ∧
    h' !! 1%positive = Some fill_gaps_record.
Proof.
  destruct (proj1 (C7_normalize_agrees_with_create
                     (module_types Timedelta_2ns)
                     {[ 1%positive := fill_gaps_record ]} 1%positive)
              "fill_gaps"%string fill_gaps_kwargs)
    as (h' & Hrun & Hl & _).
  - reflexivity.
  - reflexivity.
  - exists h'. split; [|exact Hl]. rewrite Hrun. f_equal.
Defined.

(** ** The multi-provider loader *)

Section RouterProperties.
Context {S T : Type}.
Implicit Types (providers rest : list (Provider S T)) (tags : list string).
Implicit Types (acts : list (action S)) (from_ts to_ts : T).

Lemma first_capable_ge k providers tag j :
  first_capable k providers tag = Some j → (k ≤ j)%nat.
Proof.
  revert k. induction providers as [|p providers IH]; intros k; simpl.
  - discriminate.
  - destruct (can_handle_tag p tag).
    + intros [= <-]. lia.
    + intros H. apply IH in H. lia.
Qed.

Lemma first_capable_earliest k providers tag i p :
  providers !! i = Some p → can_handle_tag p tag = true →
  (∀ j q, (j < i)%nat → providers !! j = Some q → can_handle_tag q tag = false) →
  first_capable k providers tag = Some (k + i)%nat.
Proof.
  revert k i. induction providers as [|q providers IH]; intros k i Hi Hp Hlt.
  - discriminate.
  - destruct i as [|i]; simpl in *.
    + injection Hi as ->. rewrite Hp. f_equal. lia.
    + rewrite (Hlt 0%nat q) by (reflexivity || lia).
      rewrite (IH (Datatypes.S k) i Hi Hp).
      * f_equal. lia.
      * intros j r Hj Hr. apply (Hlt (Datatypes.S j) r); [lia | exact Hr].
Qed.

Lemma first_capable_None k providers tag :
  (∀ p, p ∈ providers → can_handle_tag p tag = false) →
  first_capable k providers tag = None.
Proof.
  revert k. induction providers as [|p providers IH]; intros k H; simpl.
  - reflexivity.
  - rewrite (H p) by apply list_elem_of_here. apply IH.
    intros q Hq. apply H, list_elem_of_further, Hq.
Qed.

Lemma elem_of_group providers tags i tag :
  tag ∈ group providers tags i ↔
  tag ∈ tags ∧ first_capable 0 providers tag = Some i.
Proof.
  unfold group. rewrite !list_elem_of_In, filter_In, bool_decide_eq_true.
  reflexivity.
Qed.

Lemma elem_of_unserviceable providers tags tag :
  tag ∈ unserviceable providers tags ↔
  tag ∈ tags ∧ first_capable 0 providers tag = None.
Proof.
  unfold unserviceable. rewrite !list_elem_of_In, filter_In, bool_decide_eq_true.
  reflexivity.
Qed.

Lemma invocations_Yield (l : list S) acts :
  invocations (map Yield l ++ acts) = invocations acts.
Proof. induction l; simpl; auto. Qed.

Lemma items_Yield (l : list S) acts :
  items (map Yield l ++ acts) = l ++ items acts.
Proof. induction l; simpl; f_equal; auto. Qed.

Lemma invocations_Invoke i g acts :
  invocations (Invoke i g :: acts) = (i, g) :: invocations acts.
Proof. reflexivity. Qed.

Lemma items_Invoke i g acts : items (Invoke i g :: acts) = items acts.
Proof. reflexivity. Qed.

Lemma invocations_only_Yield (l : list S) : invocations (map Yield l) = [].
Proof. induction l; simpl; auto. Qed.

Lemma items_only_Yield (l : list S) : items (map Yield l) = l.
Proof. induction l; simpl; f_equal; auto. Qed.

(** The shape of one round of [dispatch] whose group is not empty. *)
Lemma dispatch_cons all from_ts to_ts tags i p rest :
  group all tags i ≠ [] →
  dispatch all from_ts to_ts tags i (p :: rest)
  = match (load_dataframes p from_ts to_ts (group all tags i)).2 with
    | Some e =>
        (Invoke i (group all tags i)
           :: map Yield (load_dataframes p from_ts to_ts (group all tags i)).1,
         Raised e)
    | None =>
        (Invoke i (group all tags i)
           :: map Yield (load_dataframes p from_ts to_ts (group all tags i)).1
           ++ (dispatch all from_ts to_ts tags (Datatypes.S i) rest).1,
         (dispatch all from_ts to_ts tags (Datatypes.S i) rest).2)
    end.
Proof.
  intros Hg. cbn [dispatch].
  destruct (group all tags i) as [|tag g] eqn:E; [congruence|].
  destruct (load_dataframes p from_ts to_ts (tag :: g)) as [its [e|]];
    cbn [fst snd]; [reflexivity|].
  destruct (dispatch all from_ts to_ts tags (Datatypes.S i) rest); reflexivity.
Qed.

Lemma dispatch_skip all from_ts to_ts tags i p rest :
  group all tags i = [] →
  dispatch all from_ts to_ts tags i (p :: rest)
  = dispatch all from_ts to_ts tags (Datatypes.S i) rest.
Proof. intros Hg. cbn [dispatch]. rewrite Hg. reflexivity. Qed.

(** Every invocation hands a provider its whole, non-empty group. *)
Lemma dispatch_invocations all from_ts to_ts tags rest i j g :
  (j, g) ∈ invocations (dispatch all from_ts to_ts tags i rest).1 →
  g = group all tags j ∧ g ≠ [] ∧ (i ≤ j)%nat.
Proof.
  revert i. induction rest as [|p rest IH]; intros i H.
  - simpl in H. inversion H.
  - destruct (decide (group all tags i = [])) as [Hg|Hg].
    + rewrite (dispatch_skip _ _ _ _ _ _ _ Hg) in H.
      apply IH in H as (? & ? & ?). repeat split; [assumption..|lia].
    + rewrite (dispatch_cons _ _ _ _ _ _ _ Hg) in H.
      destruct (load_dataframes p from_ts to_ts (group all tags i)) as [its [e|]];
        cbn [fst snd] in H; rewrite invocations_Invoke in H.
      * rewrite invocations_only_Yield in H.
        apply list_elem_of_singleton in H. injection H as -> ->.
        repeat split; [assumption | lia].
      * rewrite invocations_Yield in H.
        apply elem_of_cons in H as [H|H].
        { injection H as -> ->. repeat split; [assumption | lia]. }
        apply IH in H as (? & ? & ?). repeat split; [assumption..|lia].
Qed.

(** Providers are invoked in priority order, each at most once. *)
Lemma dispatch_sorted all from_ts to_ts tags rest i :
  StronglySorted lt (invocations (dispatch all from_ts to_ts tags i rest).1).*1.
Proof.
  revert i. induction rest as [|p rest IH]; intros i.
  - constructor.
  - destruct (decide (group all tags i = [])) as [Hg|Hg].
    + rewrite (dispatch_skip _ _ _ _ _ _ _ Hg). apply IH.
    + rewrite (dispatch_cons _ _ _ _ _ _ _ Hg).
      destruct (load_dataframes p from_ts to_ts (group all tags i)) as [its [e|]];
        cbn [fst snd]; rewrite invocations_Invoke.
      * rewrite invocations_only_Yield. repeat constructor.
      * rewrite invocations_Yield. cbn [fmap list_fmap fst].
        constructor; [apply IH|].
        apply Forall_forall. intros j Hj.
        apply list_elem_of_fmap in Hj as ([j' g] & -> & Hj).
        apply dispatch_invocations in Hj as (_ & _ & Hj). simpl. lia.
Qed.

(** A run that ends normally has invoked every provider that has a
    group. *)
Lemma dispatch_complete all from_ts to_ts tags rest i j :
  (dispatch all from_ts to_ts tags i rest).2 = StopIteration →
  (i ≤ j < i + length rest)%nat → group all tags j ≠ [] →
  (j, group all tags j) ∈ invocations (dispatch all from_ts to_ts tags i rest).1.
Proof.
  revert i. induction rest as [|p rest IH]; intros i He Hj Hgj.
  - simpl in Hj. lia.
  - cbn [length] in Hj.
    destruct (decide (group all tags i = [])) as [Hg|Hg].
    + rewrite (dispatch_skip _ _ _ _ _ _ _ Hg) in *.
      apply IH; [assumption| |assumption].
      destruct (decide (j = i)) as [->|]; [contradiction | lia].
    + rewrite (dispatch_cons _ _ _ _ _ _ _ Hg) in *.
      destruct (load_dataframes p from_ts to_ts (group all tags i)) as [its [e|]];
        cbn [fst snd] in *; [discriminate|].
      rewrite invocations_Invoke, invocations_Yield.
      destruct (decide (j = i)) as [->|].
      * apply list_elem_of_here.
      * apply list_elem_of_further, IH; [assumption | lia | assumption].
Qed.

(** The items of a run are what the invoked providers gave, in order. *)
Lemma dispatch_items all from_ts to_ts tags rest i :
  (∀ k p, rest !! k = Some p → all !! (i + k)%nat = Some p) →
  items (dispatch all from_ts to_ts tags i rest).1
  = produced all from_ts to_ts
      (invocations (dispatch all from_ts to_ts tags i rest).1).
Proof.
  revert i. induction rest as [|p rest IH]; intros i Hall.
  - reflexivity.
  - assert (Hrest : ∀ k q, rest !! k = Some q →
                      all !! (Datatypes.S i + k)%nat = Some q).
    { intros k q Hk. rewrite <- (Hall (Datatypes.S k) q Hk). f_equal. lia. }
    assert (Hp : all !! i = Some p).
    { rewrite <- (Hall 0%nat p eq_refl). f_equal. lia. }
    destruct (decide (group all tags i = [])) as [Hg|Hg].
    + rewrite (dispatch_skip _ _ _ _ _ _ _ Hg). apply IH, Hrest.
    + rewrite (dispatch_cons _ _ _ _ _ _ _ Hg).
      destruct (load_dataframes p from_ts to_ts (group all tags i))
        as [its [e|]] eqn:El;
        cbn [fst snd]; rewrite invocations_Invoke, items_Invoke.
      * rewrite invocations_only_Yield, items_only_Yield.
        cbn [produced flat_map fst snd]. rewrite Hp, El, app_nil_r.
        reflexivity.
      * rewrite invocations_Yield, items_Yield.
        cbn [produced flat_map fst snd]. rewrite Hp, El. cbn [fst].
        f_equal. apply IH, Hrest.
Qed.

Lemma body_StopIteration providers from_ts to_ts tags :
  (body providers from_ts to_ts tags).2 = StopIteration →
  body providers from_ts to_ts tags
  = dispatch providers from_ts to_ts tags 0 providers.
Proof.
  unfold body. destruct (unserviceable providers tags); [reflexivity|].
  discriminate.
Qed.

(** C4.  Constructing the routed call invokes no loader and raises
    nothing; if some requested tag is accepted by no provider, the first
    pull from the sequence raises [RoutingError] with the unmatched tags,
    that tag among them, and no loader has been invoked. *)
Theorem C4_construction_is_inert_and_first_pull_fails
    (providers : list (Provider S T)) (from_ts to_ts : T)
    (tags : list string) :
  load_dataframes_from_multiple_providers providers from_ts to_ts tags
  = ([], Return (Suspended providers from_ts to_ts tags)) ∧
  ∀ tag, tag ∈ tags →
    (∀ p, p ∈ providers → can_handle_tag p tag = false) →
    ∃ unmatched, tag ∈ unmatched ∧
      next (Suspended providers from_ts to_ts tags)
      = ([], End (Raised (RoutingError unmatched)), Started [] StopIteration).
Proof.
  split; [reflexivity|]. intros tag Hin Hnone.
  exists (unserviceable providers tags).
  assert (Hu : tag ∈ unserviceable providers tags).
  { apply elem_of_unserviceable. split; [exact Hin|].
    apply first_capable_None, Hnone. }
  split; [exact Hu|]. unfold next, run, body.
  destruct (unserviceable providers tags); [inversion Hu | reflexivity].
Qed.

(** C5.  Let [tag] be a requested tag and [p], at position [i], the
    earliest provider that accepts it.  In a run that ends normally the
    loader of [p] is invoked with its group, which holds [tag]; no other
    invocation is given [tag]; the items of the sequence are what the
    invoked providers gave, invocation after invocation; and the
    invocations follow the order of the provider list. *)
Theorem C5_tag_goes_to_earliest_provider
    (providers : list (Provider S T)) (from_ts to_ts : T)
    (tags : list string) (tag : string) (i : nat) (p : Provider S T)
    (invs : list (nat * list string)) (its : list S) :
  tag ∈ tags →
  providers !! i = Some p →
  can_handle_tag p tag = true →
  (∀ j q, (j < i)%nat → providers !! j = Some q → can_handle_tag q tag = false) →
  consume (Suspended providers from_ts to_ts tags) = (invs, its, StopIteration) →
  (i, group providers tags i) ∈ invs ∧
  tag ∈ group providers tags i ∧
  (∀ j g, (j, g) ∈ invs → tag ∈ g → j = i) ∧
  its = produced providers from_ts to_ts invs ∧
  StronglySorted lt invs.*1.
Proof.
  intros Hin Hi Hp Hlt Hrun. unfold consume, run in Hrun.
  destruct (body providers from_ts to_ts tags) as [acts e] eqn:Hb.
  injection Hrun as <- <- ->.
  assert (Hd : dispatch providers from_ts to_ts tags 0 providers
               = (acts, StopIteration)).
  { rewrite <- body_StopIteration; rewrite Hb; reflexivity. }
  assert (Hfirst : first_capable 0 providers tag = Some i).
  { apply (first_capable_earliest 0 providers tag i p Hi Hp Hlt). }
  assert (Hg : tag ∈ group providers tags i).
  { apply elem_of_group. split; assumption. }
  replace acts with (dispatch providers from_ts to_ts tags 0 providers).1
    by (rewrite Hd; reflexivity).
  split; [|split; [exact Hg|split; [|split]]].
  - apply dispatch_complete.
    + rewrite Hd. reflexivity.
    + apply lookup_lt_Some in Hi. lia.
    + intros E. rewrite E in Hg. inversion Hg.
  - intros j g Hj Htag. apply dispatch_invocations in Hj as (-> & _ & _).
    apply elem_of_group in Htag as [_ Htag]. congruence.
  - apply dispatch_items. intros k q Hk. exact Hk.
  - apply dispatch_sorted.
Qed.

End RouterProperties.

(** A pull runs the sequence up to its next item and no further. *)
Lemma advance_spec {S T : Type} (acts : list (action S)) (e : ending) :
  items (advance (T := T) acts e).1.1 = [] ∧
  match (advance (T := T) acts e).1.2 with
  | Item s =>
      acts = (advance (T := T) acts e).1.1
               ++ Yield s :: (run (advance (T := T) acts e).2).1 ∧
      e = (run (advance (T := T) acts e).2).2
  | End e' => acts = (advance (T := T) acts e).1.1 ∧ e' = e
  end.
Proof.
  induction acts as [|[i g|s] acts IH]; cbn [advance].
  - split; [reflexivity|]. split; reflexivity.
  - destruct (advance acts e) as [[done r] g'] eqn:E. cbn [fst snd] in *.
    destruct IH as [IH1 IH2]. split; [exact IH1|].
    destruct r as [s|e'].
    + destruct IH2 as [-> ->]. split; reflexivity.
    + destruct IH2 as [-> ->]. split; reflexivity.
  - split; [reflexivity|]. split; reflexivity.
Qed.

Lemma C4_witness :
  ∃ unmatched, "unmatched"%string ∈ unmatched ∧
    next (Suspended [ab_producer; containing_b_producer] () ()
            ["ab"%string; "unmatched"%string])
    = ([], End (Raised (RoutingError unmatched)), Started [] StopIteration).
Proof.
  apply (proj2 (C4_construction_is_inert_and_first_pull_fails
                  [ab_producer; containing_b_producer] () ()
                  ["ab"%string; "unmatched"%string])).
  - apply list_elem_of_further, list_elem_of_here.
  - intros p Hp. apply elem_of_cons in Hp as [->|Hp]; [reflexivity|].
    apply list_elem_of_singleton in Hp as ->. reflexivity.
Defined.

(** The grouped dispatch example of the tests: the tag ["abba"], accepted
    by both providers, is loaded from the first, and the first provider's
    item comes before the second's. *)
Lemma C5_witness :
  consume (Suspended [ab_producer; containing_b_producer] () ()
             ["abba"%string; "cba"%string])
  = ([(0%nat, ["abba"%string]); (1%nat, ["cba"%string])],
     ["ab.*"%string; ".*b.*"%string], StopIteration) ∧
  ∀ j g, (j, g) ∈ [(0%nat, ["abba"%string]); (1%nat, ["cba"%string])] →
    "abba"%string ∈ g → j = 0%nat.
Proof.
  split; [reflexivity|].
  apply (C5_tag_goes_to_earliest_provider
           [ab_producer; containing_b_producer] () ()
           ["abba"%string; "cba"%string] "abba"%string 0%nat ab_producer
           [(0%nat, ["abba"%string]); (1%nat, ["cba"%string])]
           ["ab.*"%string; ".*b.*"%string]).
  - apply list_elem_of_here.
  - reflexivity.
  - reflexivity.
  - intros j q Hj. lia.
  - reflexivity.
Defined.

(** * Further properties *)

(** ** [prepare_data] *)

Lemma gap_names_in_spec cols items :
  gap_names_in cols items ↔
  ∀ name gaps, (name, gaps) ∈ items → gaps ≠ [] → name ∈ cols.
Proof.
  unfold gap_names_in. rewrite Forall_forall. split.
  - intros H name gaps Hel. apply (H (name, gaps) Hel).
  - intros H [name gaps] Hel. apply (H name gaps Hel).
Qed.

Lemma columns_correct items v df : columns (correct items v df) = columns df.
Proof. apply columns_map_cells. Qed.

Lemma correct_idem items v df :
  correct items v (correct items v df) = correct items v df.
Proof.
  unfold correct. rewrite map_cells_compose. apply map_cells_ext.
  intros n t c. destruct (covered items n t); reflexivity.
Qed.

Lemma fill_items_correct v items df :
  gap_names_in (columns df) items →
  fill_items v items df = (correct items v df, Return ()).
Proof. intros H. apply fill_items_cells, gap_names_in_spec, H. Qed.

Lemma fill_items_app v pre rest df :
  fill_items v (pre ++ rest) df
  = match fill_items v pre df with
    | (df', Raise e) => (df', Raise e)
    | (df', Return _) => fill_items v rest df'
    end.
Proof.
  revert df. induction pre as [|[name gaps] pre IH]; intros df;
    [reflexivity|].
  cbn [app fill_items].
  destruct (fill_gaps v name gaps df) as [df' [[]|e]]; [apply IH | reflexivity].
Qed.

(** The loop stops at the first name that has a gap and no column, with
    the names before it applied. *)
Lemma fill_items_stops v pre name gap gaps post df :
  gap_names_in (columns df) pre → name ∉ columns df →
  fill_items v (pre ++ (name, gap :: gaps) :: post) df
  = (correct pre v df, Raise (KeyError name)).
Proof.
  intros Hpre Hname. rewrite fill_items_app, (fill_items_correct _ _ _ Hpre).
  cbn [fill_items]. rewrite fill_gaps_missing; [reflexivity|].
  rewrite columns_correct. exact Hname.
Qed.

Lemma first_missing_split cols items :
  ¬ gap_names_in cols items →
  ∃ pre name gap gaps post,
    items = pre ++ (name, gap :: gaps) :: post ∧
    gap_names_in cols pre ∧ name ∉ cols.
Proof.
  induction items as [|[name gaps] items IH]; intros H.
  - exfalso. apply H. constructor.
  - destruct (decide (gaps ≠ [] → name ∈ cols)) as [Hok|Hbad].
    + destruct IH as (pre & n & g & gs & post & -> & Hpre & Hn).
      { intros Hrest. apply H. constructor; assumption. }
      exists ((name, gaps) :: pre), n, g, gs, post.
      split; [reflexivity|]. split; [constructor; assumption | exact Hn].
    + destruct gaps as [|g gs]; [exfalso; apply Hbad; congruence|].
      exists [], name, g, gs, items. split; [reflexivity|].
      split; [constructor|]. intros Hin. apply Hbad. intros _. exact Hin.
Qed.

(** When the registry is [pre], then a name that has a gap and is not
    a column, then anything, and every name of [pre] that has a gap is a
    column, [prepare_data] raises [KeyError] for that name and leaves the
    table with exactly the gaps of [pre] overwritten. *)
Theorem prepare_data_stops_at_first_missing_column
    (self : FillGapsPreprocessor) (df : DataFrame) (pre post : gaps_dict)
    (name : string) (first : gap) (gaps : list gap) :
  _gaps self = pre ++ (name, first :: gaps) :: post →
  gap_names_in (columns df) pre →
  name ∉ columns df →
  prepare_data self df
  = (correct pre (replace_value self) df, Raise (KeyError name)).
Proof.
  intros Hg Hpre Hname. unfold prepare_data.
  rewrite Hg, (fill_items_stops _ _ _ _ _ _ _ Hpre Hname). reflexivity.
Qed.

Lemma prepare_data_stops_witness :
  prepare_data
    (fill_gaps_with [("tag"%string, [(2, 10)]); ("zz"%string, [(1, 2)]);
                     ("other"%string, [(0, 2)])])
    merged_table
  = ({| df_index := [0; 1; 2; 5; 8; 10; 11];
        df_columns :=
          [("tag"%string,
            [PyInt 7; PyInt 7; PyInt 7; PyInt 0; PyInt 0; PyInt 7; PyInt 7]);
           ("other"%string, sevens)] |},
     Raise (KeyError "zz")).
Proof.
  rewrite (prepare_data_stops_at_first_missing_column
             (fill_gaps_with [("tag"%string, [(2, 10)]); ("zz"%string, [(1, 2)]);
                              ("other"%string, [(0, 2)])])
             merged_table [("tag"%string, [(2, 10)])]
             [("other"%string, [(0, 2)])] "zz"%string (1, 2) []).
  - reflexivity.
  - reflexivity.
  - constructor; [intros _; apply list_elem_of_here | constructor].
  - intros H. apply list_elem_of_In in H. vm_compute in H. intuition discriminate.
Defined.

Lemma prepare_data_cases self df :
  (gap_names_in (columns df) (_gaps self) ∧
   prepare_data self df
   = (correct (_gaps self) (replace_value self) df,
      Return (correct (_gaps self) (replace_value self) df))) ∨
  (∃ pre name,
     gap_names_in (columns df) pre ∧ (name ∉ columns df) ∧
     (∃ gap gaps post, _gaps self = pre ++ (name, gap :: gaps) :: post) ∧
     prepare_data self df
     = (correct pre (replace_value self) df, Raise (KeyError name))).
Proof.
  destruct (decide (gap_names_in (columns df) (_gaps self))) as [H|H].
  - left. split; [exact H|]. unfold prepare_data.
    rewrite (fill_items_correct _ _ _ H). reflexivity.
  - right. apply first_missing_split in H
      as (pre & name & gap & gaps & post & Hg & Hpre & Hname).
    exists pre, name. split; [exact Hpre|]. split; [exact Hname|].
    split; [eauto|]. unfold prepare_data.
    rewrite Hg, (fill_items_stops _ _ _ _ _ _ _ Hpre Hname). reflexivity.
Qed.

(** Running [prepare_data] again on the table it left changes
    nothing more and ends the same way, whether it returned or raised. *)
Theorem prepare_data_again_is_same
    (self : FillGapsPreprocessor) (df : DataFrame) :
  prepare_data self (prepare_data self df).1 = prepare_data self df.
Proof.
  destruct (prepare_data_cases self df)
    as [[H ->]|(pre & name & Hpre & Hname & (gap & gaps & post & Hg) & ->)];
    cbn [fst].
  - unfold prepare_data. rewrite fill_items_correct
      by (rewrite columns_correct; exact H).
    rewrite correct_idem. reflexivity.
  - unfold prepare_data. rewrite Hg, fill_items_stops.
    + rewrite correct_idem. reflexivity.
    + rewrite columns_correct. exact Hpre.
    + rewrite columns_correct. exact Hname.
Qed.

Lemma map_col_lookup_cases f idx col i c :
  col !! i = Some c →
  map_col f idx col !! i = Some c ∨
  ∃ t, idx !! i = Some t ∧ map_col f idx col !! i = Some (f t c).
Proof.
  revert col i. induction idx as [|t idx IH]; intros [|c0 col] i Hc;
    try discriminate.
  - left. exact Hc.
  - destruct i as [|i]; simpl in *.
    + injection Hc as ->. right. exists t. split; reflexivity.
    + apply IH, Hc.
Qed.

Lemma prepare_data_is_correct self df :
  ∃ items, (prepare_data self df).1 = correct items (replace_value self) df.
Proof.
  destruct (prepare_data_cases self df)
    as [[_ ->]|(pre & name & _ & _ & _ & ->)]; eauto.
Qed.

(** Whether it returns or raises, [prepare_data] leaves the table with the
    same row index, the same column labels in the same order and columns
    of the same length, and every cell holds either what it held or the
    replacement value. *)
Theorem prepare_data_keeps_shape
    (self : FillGapsPreprocessor) (df : DataFrame) :
  df_index (prepare_data self df).1 = df_index df ∧
  columns (prepare_data self df).1 = columns df ∧
  ∀ j name col, df_columns df !! j = Some (name, col) →
    ∃ col', df_columns (prepare_data self df).1 !! j = Some (name, col') ∧
      length col' = length col ∧
      ∀ i c, col !! i = Some c →
        col' !! i = Some c ∨ col' !! i = Some (replace_value self).
Proof.
  destruct (prepare_data_is_correct self df) as [items ->].
  split; [reflexivity|]. split; [apply columns_correct|].
  intros j name col Hj. eexists. split; [apply map_cells_column, Hj|].
  split; [apply map_col_length|].
  intros i c Hc.
  destruct (map_col_lookup_cases
              (λ t c, if covered items name t then replace_value self else c)
              (df_index df) col i c Hc) as [H|(t & _ & H)].
  - left. exact H.
  - rewrite H. destruct (covered items name t); auto.
Qed.

Lemma covered_Permutation items items' name t :
  items ≡ₚ items' → covered items name t = covered items' name t.
Proof.
  intros HP. apply eq_true_iff_eq. rewrite !covered_spec.
  split; intros (gaps & a & b & Hin & H); exists gaps, a, b;
    (split; [|exact H]).
  - rewrite <- HP. exact Hin.
  - rewrite HP. exact Hin.
Qed.

(** When every name with a gap is a column, the table [prepare_data]
    returns does not depend on the order of the registry's entries. *)
Theorem prepare_data_order_irrelevant
    (self self' : FillGapsPreprocessor) (df : DataFrame) :
  replace_value self' = replace_value self →
  _gaps self' ≡ₚ _gaps self →
  gap_names_in (columns df) (_gaps self) →
  prepare_data self' df = prepare_data self df.
Proof.
  intros Hv HP H.
  assert (H' : gap_names_in (columns df) (_gaps self')).
  { unfold gap_names_in in *. rewrite HP. exact H. }
  unfold prepare_data.
  rewrite (fill_items_correct _ _ _ H), (fill_items_correct _ _ _ H'), Hv.
  replace (correct (_gaps self') (replace_value self) df)
    with (correct (_gaps self) (replace_value self) df); [reflexivity|].
  apply map_cells_ext. intros n t c.
  rewrite (covered_Permutation _ _ n t HP). reflexivity.
Qed.

Lemma prepare_data_order_witness :
  prepare_data
    (fill_gaps_with [("other"%string, [(0, 2)]); ("tag"%string, [(2, 10)])])
    merged_table
  = prepare_data
      (fill_gaps_with [("tag"%string, [(2, 10)]); ("other"%string, [(0, 2)])])
      merged_table.
Proof.
  apply prepare_data_order_irrelevant.
  - reflexivity.
  - apply perm_swap.
  - constructor; [intros _; apply list_elem_of_here|].
    constructor; [intros _; apply list_elem_of_further, list_elem_of_here|].
    constructor.
Defined.

(** ** [prepare_series] *)

Lemma getitem_extend_nil k added : getitem_extend [] k added = [(k, added)].
Proof.
  unfold getitem_extend, defaultdict_getitem. simpl.
  rewrite decide_True by reflexivity. reflexivity.
Qed.

Lemma getitem_extend_cons k' w d k added :
  getitem_extend ((k', w) :: d) k added
  = if decide (k' = k) then (k', w ++ added) :: d
    else (k', w) :: getitem_extend d k added.
Proof.
  unfold getitem_extend, defaultdict_getitem. cbn [dict_get].
  destruct (decide (k' = k)) as [->|Hne].
  - cbn [fst snd dict_set]. rewrite decide_True by reflexivity. reflexivity.
  - destruct (dict_get d k) as [v|]; cbn [fst snd dict_set app];
      rewrite decide_False by exact Hne; reflexivity.
Qed.

Lemma dict_get_getitem_extend d k added k' :
  dict_get (getitem_extend d k added) k'
  = if decide (k = k') then Some (default [] (dict_get d k) ++ added)
    else dict_get d k'.
Proof.
  induction d as [|[k0 w] d IH].
  - rewrite getitem_extend_nil. simpl. destruct (decide (k = k')); reflexivity.
  - rewrite getitem_extend_cons. cbn [dict_get].
    destruct (decide (k0 = k)) as [->|Hne]; cbn [dict_get].
    + destruct (decide (k = k')); reflexivity.
    + rewrite IH. destruct (decide (k0 = k')) as [->|]; [|reflexivity].
      rewrite decide_False by congruence. reflexivity.
Qed.

Lemma keys_getitem_extend d k added :
  (getitem_extend d k added).*1 = add_key d.*1 k.
Proof.
  unfold add_key. induction d as [|[k0 w] d IH].
  - rewrite getitem_extend_nil. reflexivity.
  - rewrite getitem_extend_cons. cbn [fmap list_fmap fst].
    destruct (decide (k0 = k)) as [->|Hne].
    + rewrite decide_True by apply list_elem_of_here. reflexivity.
    + cbn [fmap list_fmap fst]. rewrite IH.
      destruct (decide (k ∈ d.*1)) as [Hin|Hnin].
      * rewrite decide_True by (apply list_elem_of_further, Hin). reflexivity.
      * rewrite decide_False; [reflexivity|].
        intros Hin. apply elem_of_cons in Hin as [->|Hin]; contradiction.
Qed.

Lemma Forall_getitem_extend (P : string * list gap → Prop) d k added :
  Forall P d →
  (∀ w, w = [] ∨ (k, w) ∈ d → P (k, w ++ added)) →
  Forall P (getitem_extend d k added).
Proof.
  intros Hd Hk. induction Hd as [|[k0 w] d H0 Hd IH].
  - rewrite getitem_extend_nil. constructor; [|constructor].
    apply (Hk []). left. reflexivity.
  - rewrite getitem_extend_cons. destruct (decide (k0 = k)) as [->|Hne].
    + constructor; [|exact Hd]. apply Hk. right. apply list_elem_of_here.
    + constructor; [exact H0|]. apply IH. intros w0 [->|Hin]; apply Hk.
      * left. reflexivity.
      * right. apply list_elem_of_further, Hin.
Qed.

Lemma scan_cons_extend g gaps result value series :
  scannable g value →
  scan (PyTimedelta g) gaps result (value :: series)
  = scan (PyTimedelta g)
      (getitem_extend gaps (name value) (map recorded (wide_pairs g value)))
      (result ++ [value]) series.
Proof. apply scan_cons_scannable. Qed.

Lemma scan_cons_stop g gaps result value series :
  ¬ scannable g value →
  scan (PyTimedelta g) gaps result (value :: series)
  = (getitem_extend gaps (name value) [], Raise (KeyError "Time")).
Proof.
  intros Hs. rewrite (scan_cons_unscannable _ _ _ _ _ Hs).
  unfold getitem_extend. rewrite app_nil_r. reflexivity.
Qed.

(** The registry after a batch whose series can all be scanned. *)
Lemma scan_registry g gaps result series :
  Forall (scannable g) series →
  (scan (PyTimedelta g) gaps result series).1
  = foldl (λ d value,
             getitem_extend d (name value) (map recorded (wide_pairs g value)))
      gaps series.
Proof.
  intros H. revert gaps result.
  induction H as [|value series Hv _ IH]; intros gaps result; [reflexivity|].
  rewrite (scan_cons_extend _ _ _ _ _ Hv), IH. reflexivity.
Qed.

Lemma scan_app g gaps result pre rest :
  Forall (scannable g) pre →
  scan (PyTimedelta g) gaps result (pre ++ rest)
  = scan (PyTimedelta g) (scan (PyTimedelta g) gaps result pre).1
      (result ++ pre) rest.
Proof.
  intros H. revert gaps result.
  induction H as [|value pre Hv _ IH]; intros gaps result.
  - simpl. rewrite app_nil_r. reflexivity.
  - cbn [app]. rewrite !(scan_cons_extend _ _ _ _ _ Hv), IH, <- app_assoc.
    reflexivity.
Qed.

Lemma gaps_from_absent g k series :
  k ∉ name <$> series → gaps_from g k series = [].
Proof.
  induction series as [|value series IH]; intros H; [reflexivity|].
  cbn [gaps_from flat_map]. fold (gaps_from g k series).
  apply not_elem_of_cons in H as [Hne Hnin].
  rewrite decide_False by congruence. apply IH, Hnin.
Qed.

Lemma foldl_extend_get g gaps series k :
  dict_get
    (foldl (λ d value,
              getitem_extend d (name value) (map recorded (wide_pairs g value)))
       gaps series) k
  = if decide (k ∈ name <$> series)
    then Some (default [] (dict_get gaps k) ++ gaps_from g k series)
    else dict_get gaps k.
Proof.
  revert gaps. induction series as [|value series IH]; intros gaps.
  - reflexivity.
  - cbn [foldl]. rewrite IH, dict_get_getitem_extend.
    cbn [fmap list_fmap gaps_from flat_map].
    fold (gaps_from g k series).
    destruct (decide (name value = k)) as [->|Hne].
    + rewrite (decide_True (P := k ∈ k :: _)) by apply list_elem_of_here.
      destruct (decide (k ∈ name <$> series)) as [Hin|Hnin];
        cbn [default from_option id].
      * rewrite <- app_assoc. reflexivity.
      * rewrite (gaps_from_absent _ _ _ Hnin), app_nil_r. reflexivity.
    + destruct (decide (k ∈ name <$> series)) as [Hin|Hnin].
      * rewrite decide_True by (apply list_elem_of_further, Hin). reflexivity.
      * rewrite decide_False; [reflexivity|].
        intros Hin. apply elem_of_cons in Hin as [->|Hin]; contradiction.
Qed.

(** For a batch whose series can all be scanned, the intervals found are
    appended, in batch order, to the list the registry already keeps under
    each series' name (an empty list for a new name), and the lists of the
    names that do not occur in the batch are as they were. *)
Theorem prepare_series_accumulates
    (self : FillGapsPreprocessor) (g : Z) (series : list Series) (k : string) :
  gap_size self = PyTimedelta g →
  Forall (scannable g) series →
  dict_get (_gaps (prepare_series self series).1.1) k
  = if decide (k ∈ name <$> series)
    then Some (default [] (dict_get (_gaps self) k) ++ gaps_from g k series)
    else dict_get (_gaps self) k.
Proof.
  intros Hg Hs. rewrite prepare_series_gaps, Hg, (scan_registry _ _ _ _ Hs).
  apply foldl_extend_get.
Qed.

Lemma prepare_series_accumulates_witness :
  dict_get
    (_gaps (prepare_series (fill_gaps_with [("tag"%string, [(3, 9)])])
              [series_0_1_2_10_11 (Some "Time"%string); series_flow;
               series_0_1_2_10_11 (Some "Time"%string)]).1.1) "tag"
  = Some [(3, 9); (10, 18); (10, 18)].
Proof.
  rewrite (prepare_series_accumulates
             (fill_gaps_with [("tag"%string, [(3, 9)])]) 2
             [series_0_1_2_10_11 (Some "Time"%string); series_flow;
              series_0_1_2_10_11 (Some "Time"%string)] "tag").
  - reflexivity.
  - reflexivity.
  - repeat constructor.
Defined.

Lemma NoDup_add_key keys k : NoDup keys → NoDup (add_key keys k).
Proof.
  intros H. unfold add_key. destruct (decide (k ∈ keys)) as [Hin|Hnin];
    [exact H|].
  apply NoDup_app. split; [exact H|]. split.
  - intros x Hx Hk. apply list_elem_of_singleton in Hk as ->. contradiction.
  - apply NoDup_singleton.
Qed.

Lemma foldl_extend_keys g gaps series :
  (foldl (λ d value,
            getitem_extend d (name value) (map recorded (wide_pairs g value)))
     gaps series).*1
  = foldl add_key gaps.*1 (name <$> series).
Proof.
  revert gaps. induction series as [|value series IH]; intros gaps;
    [reflexivity|].
  cbn [foldl fmap list_fmap]. rewrite IH, keys_getitem_extend. reflexivity.
Qed.

Lemma NoDup_foldl_add_key keys names :
  NoDup keys → NoDup (foldl add_key keys names).
Proof.
  revert keys. induction names as [|k names IH]; intros keys H; [exact H|].
  apply IH, NoDup_add_key, H.
Qed.

Lemma prepare_series_keys_eq self g series :
  gap_size self = PyTimedelta g →
  Forall (scannable g) series →
  (_gaps (prepare_series self series).1.1).*1
  = foldl add_key (_gaps self).*1 (name <$> series).
Proof.
  intros Hg Hs. rewrite prepare_series_gaps, Hg, (scan_registry _ _ _ _ Hs).
  apply foldl_extend_keys.
Qed.

(** For a batch whose series can all be scanned, the keys of the registry
    afterwards are its keys before, in the same order, followed by the new
    names of the batch in the order they first occur; keys that were
    distinct stay distinct. *)
Theorem prepare_series_keys
    (self : FillGapsPreprocessor) (g : Z) (series : list Series) :
  gap_size self = PyTimedelta g →
  Forall (scannable g) series →
  (_gaps (prepare_series self series).1.1).*1
  = foldl add_key (_gaps self).*1 (name <$> series) ∧
  (NoDup (_gaps self).*1 → NoDup (_gaps (prepare_series self series).1.1).*1).
Proof.
  intros Hg Hs.
  pose proof (prepare_series_keys_eq self g series Hg Hs) as E.
  split; [exact E|]. intros H. rewrite E. apply NoDup_foldl_add_key, H.
Qed.

Lemma prepare_series_keys_witness :
  (_gaps (prepare_series (fill_gaps_with [("tag"%string, [(3, 9)])])
            [series_flow; series_0_1_2_10_11 (Some "Time"%string);
             series_flow]).1.1).*1
  = ["tag"%string; "flow"%string].
Proof.
  rewrite (proj1 (prepare_series_keys
                    (fill_gaps_with [("tag"%string, [(3, 9)])]) 2
                    [series_flow; series_0_1_2_10_11 (Some "Time"%string);
                     series_flow] eq_refl ltac:(repeat constructor))).
  reflexivity.
Defined.

Lemma scan_Forall (P : string * list gap → Prop) g gaps result series :
  (∀ d value, value ∈ series → Forall P d →
     Forall P (getitem_extend d (name value)
                 (map recorded (wide_pairs g value))) ∧
     Forall P (getitem_extend d (name value) [])) →
  Forall P gaps →
  Forall P (scan (PyTimedelta g) gaps result series).1.
Proof.
  revert gaps result.
  induction series as [|value series IH]; intros gaps result Hstep H;
    [exact H|].
  assert (Hv : value ∈ value :: series) by apply list_elem_of_here.
  destruct (decide (scannable g value)) as [Hs|Hs].
  - rewrite (scan_cons_extend _ _ _ _ _ Hs). apply IH.
    + intros d v Hin. apply Hstep, list_elem_of_further, Hin.
    + apply (Hstep gaps value Hv H).
  - rewrite (scan_cons_stop _ _ _ _ _ Hs). apply (Hstep gaps value Hv H).
Qed.

Lemma recorded_wider g value :
  Forall (λ gap, g < gap.2 - gap.1) (map recorded (wide_pairs g value)).
Proof.
  apply Forall_forall. intros gap Hin.
  apply list_elem_of_fmap in Hin as (p & -> & Hp).
  apply list_elem_of_In, filter_In in Hp as [_ Hw].
  unfold wide in Hw. unfold recorded. cbn [fst snd]. lia.
Qed.

(** Scanning keeps the registry well formed with respect to the
    threshold: if every interval kept before the call is wider than the
    threshold, so is every interval kept after it, also when the call
    raises. *)
Theorem prepare_series_gaps_wider_than_threshold
    (self : FillGapsPreprocessor) (g : Z) (series : list Series) :
  gap_size self = PyTimedelta g →
  (∀ k gaps gap_start gap_end,
     (k, gaps) ∈ _gaps self → (gap_start, gap_end) ∈ gaps →
     g < gap_end - gap_start) →
  ∀ k gaps gap_start gap_end,
    (k, gaps) ∈ _gaps (prepare_series self series).1.1 →
    (gap_start, gap_end) ∈ gaps →
    g < gap_end - gap_start.
Proof.
  intros Hg Hbefore.
  set (P := λ item : string * list gap,
              Forall (λ gap : gap, g < gap.2 - gap.1) item.2).
  assert (HP : Forall P (_gaps (prepare_series self series).1.1)).
  { rewrite prepare_series_gaps, Hg. apply scan_Forall.
    - intros d value _ Hd. split; apply Forall_getitem_extend; try exact Hd;
        intros w Hw; unfold P; cbn [snd]; apply Forall_app;
        (split; [|first [apply recorded_wider | constructor]]);
        (destruct Hw as [->|Hw]; [constructor|]);
        rewrite Forall_forall in Hd; apply (Hd _ Hw).
    - apply Forall_forall. intros [k gaps] Hin. unfold P. cbn [snd].
      apply Forall_forall. intros [a b] Hab. apply (Hbefore k gaps a b Hin Hab). }
  intros k gaps a b Hin Hab. rewrite Forall_forall in HP.
  specialize (HP _ Hin). unfold P in HP. cbn [snd] in HP.
  rewrite Forall_forall in HP. apply (HP _ Hab).
Qed.

Lemma prepare_series_gaps_wider_witness :
  _gaps (prepare_series (fill_gaps_with [("tag"%string, [(3, 9)])])
           [series_flow; series_0_1_2_10_11 None]).1.1
  = [("tag"%string, [(3, 9)]); ("flow"%string, [(5, 10)])] ∧
  2 < 10 - 5.
Proof.
  assert (E : _gaps (prepare_series (fill_gaps_with [("tag"%string, [(3, 9)])])
                       [series_flow; series_0_1_2_10_11 None]).1.1
              = [("tag"%string, [(3, 9)]); ("flow"%string, [(5, 10)])])
    by reflexivity.
  split; [exact E|].
  apply (prepare_series_gaps_wider_than_threshold
           (fill_gaps_with [("tag"%string, [(3, 9)])]) 2
           [series_flow; series_0_1_2_10_11 None] eq_refl)
    with (k := "flow"%string) (gaps := [(5, 10)]).
  - intros k gaps a b Hin Hab. apply list_elem_of_singleton in Hin.
    injection Hin as -> ->. apply list_elem_of_singleton in Hab.
    injection Hab as -> ->. lia.
  - rewrite E. apply list_elem_of_further, list_elem_of_here.
  - apply list_elem_of_here.
Defined.

Lemma elem_of_add_key keys k x : x ∈ keys → x ∈ add_key keys k.
Proof.
  intros H. unfold add_key. destruct (decide (k ∈ keys)); [exact H|].
  apply elem_of_app. left. exact H.
Qed.

Lemma elem_of_foldl_add_key keys names x :
  x ∈ keys → x ∈ foldl add_key keys names.
Proof.
  revert keys. induction names as [|k names IH]; intros keys H; [exact H|].
  apply IH, elem_of_add_key, H.
Qed.

Lemma log_gaps_entries gaps : log_gaps gaps = log_entry <$> gaps.
Proof.
  unfold log_gaps. change (map ?f gaps) with (f <$> gaps).
  apply list_fmap_ext. intros _ [k l] _. reflexivity.
Qed.

(** A call that scans its whole batch logs one record per entry of the
    registry, in the registry's order, so that every name recorded by an
    earlier call is reported again, whether or not the batch mentions it;
    a call that raises logs nothing. *)
Theorem prepare_series_logs_whole_registry
    (self : FillGapsPreprocessor) (g : Z) (series : list Series) :
  gap_size self = PyTimedelta g →
  (Forall (scannable g) series →
   (prepare_series self series).1.2
   = log_entry <$> _gaps (prepare_series self series).1.1 ∧
   ∀ k, k ∈ (_gaps self).*1 →
     ∃ gaps, log_entry (k, gaps) ∈ (prepare_series self series).1.2) ∧
  (Exists (λ value, ¬ scannable g value) series →
   (prepare_series self series).1.2 = []).
Proof.
  intros Hg. split.
  - intros Hs.
    assert (E : (prepare_series self series).1.2
                = log_entry <$> _gaps (prepare_series self series).1.1).
    { pose proof (scan_scannable g (_gaps self) [] series Hs) as Hr.
      unfold prepare_series. rewrite Hg.
      destruct (scan (PyTimedelta g) (_gaps self) [] series) as [gaps out].
      cbn [snd] in Hr. subst out. cbn [fst snd _gaps].
      apply log_gaps_entries. }
    split; [exact E|]. intros k Hk.
    assert (Hk' : k ∈ (_gaps (prepare_series self series).1.1).*1).
    { rewrite (prepare_series_keys_eq self g series Hg Hs).
      apply elem_of_foldl_add_key, Hk. }
    apply list_elem_of_fmap in Hk' as ([k' gaps] & -> & Hin).
    exists gaps. rewrite E. apply list_elem_of_fmap. exists (k', gaps).
    split; [reflexivity | exact Hin].
  - intros Hs. pose proof (scan_unscannable g (_gaps self) [] series Hs) as Hr.
    unfold prepare_series. rewrite Hg.
    destruct (scan (PyTimedelta g) (_gaps self) [] series) as [gaps out].
    cbn [snd] in Hr. subst out. reflexivity.
Qed.

Lemma prepare_series_logs_witness :
  (prepare_series (fill_gaps_with [("tag"%string, [(3, 9); (20, 30)])])
     [series_flow]).1.2
  = [(2%nat, "s"%string, "tag"%string); (1%nat, ""%string, "flow"%string)] ∧
  (prepare_series (fill_gaps_with [("tag"%string, [(3, 9)])])
     [series_flow; series_0_1_2_10_11 None]).1.2 = [].
Proof.
  destruct (prepare_series_logs_whole_registry
              (fill_gaps_with [("tag"%string, [(3, 9); (20, 30)])]) 2
              [series_flow] eq_refl) as [H1 _].
  destruct (H1 ltac:(repeat constructor)) as [-> _].
  split; [reflexivity|].
  apply (prepare_series_logs_whole_registry
           (fill_gaps_with [("tag"%string, [(3, 9)])]) 2
           [series_flow; series_0_1_2_10_11 None] eq_refl).
  apply Exists_cons_tl, Exists_cons_hd. intros [H|H]; discriminate.
Defined.

(** If every name that has a gap in the registry is a column of the
    table and every series of the batch is named after a column, then
    after [prepare_series] on the batch, whether it returned or raised,
    [prepare_data] on the table returns. *)
Theorem prepare_data_after_prepare_series_returns
    (self : FillGapsPreprocessor) (g : Z) (series : list Series)
    (df : DataFrame) :
  gap_size self = PyTimedelta g →
  gap_names_in (columns df) (_gaps self) →
  (∀ value, value ∈ series → name value ∈ columns df) →
  let self' := (prepare_series self series).1.1 in
  prepare_data self' df
  = (correct (_gaps self') (replace_value self) df,
     Return (correct (_gaps self') (replace_value self) df)).
Proof.
  intros Hg Hin Hnames self'.
  assert (H' : gap_names_in (columns df) (_gaps self')).
  { unfold self'. rewrite prepare_series_gaps, Hg. apply scan_Forall.
    - intros d value Hv Hd. split; apply Forall_getitem_extend; try exact Hd;
        intros w _ _; cbn [fst]; apply Hnames, Hv.
    - exact Hin. }
  assert (Hv : replace_value self' = replace_value self).
  { unfold self', prepare_series.
    destruct (scan _ _ _ _) as [gaps [r|e]]; reflexivity. }
  unfold prepare_data. rewrite (fill_items_correct _ _ _ H'), Hv. reflexivity.
Qed.

Lemma prepare_data_after_prepare_series_witness :
  (prepare_data
     (prepare_series (fill_gaps_with [])
        [series_0_1_2_10_11 (Some "Time"%string)]).1.1 merged_table).2
  = Return
      {| df_index := [0; 1; 2; 5; 8; 10; 11];
         df_columns :=
           [("tag"%string,
             [PyInt 7; PyInt 7; PyInt 7; PyInt 7; PyInt 7; PyInt 7; PyInt 0]);
            ("other"%string, sevens)] |}.
Proof.
  rewrite (prepare_data_after_prepare_series_returns
             (fill_gaps_with []) 2 [series_0_1_2_10_11 (Some "Time"%string)]
             merged_table).
  - reflexivity.
  - reflexivity.
  - constructor.
  - intros value Hv. apply list_elem_of_singleton in Hv as ->.
    apply list_elem_of_here.
Defined.

Lemma dict_set_same d k l : dict_get d k = Some l → dict_set d k l = d.
Proof.
  induction d as [|[k0 w] d IH]; simpl; [discriminate|].
  destruct (decide (k0 = k)) as [->|Hne].
  - intros [= ->]. reflexivity.
  - intros H. rewrite (IH H). reflexivity.
Qed.

Lemma getitem_extend_empty d k :
  getitem_extend d k [] = (defaultdict_getitem d k).1.
Proof.
  unfold getitem_extend. rewrite app_nil_r. apply dict_set_same.
  unfold defaultdict_getitem. destruct (dict_get d k) as [l|] eqn:E.
  - exact E.
  - apply dict_get_app_fresh, E.
Qed.

(** When the batch reaches a series whose index is not named ["Time"] and
    which has a pair of timestamps further apart than the threshold, the
    series before it being scannable, [prepare_series] raises [KeyError]
    for ["Time"] and logs nothing; the registry keeps what the series
    before it added, has an entry for the name of that series (empty if
    the name is new) and nothing from the series after it. *)
Theorem prepare_series_stops_at_unnamed_index
    (self : FillGapsPreprocessor) (g : Z) (pre post : list Series)
    (value : Series) :
  gap_size self = PyTimedelta g →
  Forall (scannable g) pre →
  index_name value ≠ Some "Time"%string →
  wide_pairs g value ≠ [] →
  prepare_series self (pre ++ value :: post)
  = ({| gap_size := gap_size self;
        replace_value := replace_value self;
        _gaps := (defaultdict_getitem (_gaps (prepare_series self pre).1.1)
                    (name value)).1 |},
     [], Raise (KeyError "Time")).
Proof.
  intros Hg Hpre Hname Hwide.
  assert (Hns : ¬ scannable g value) by (intros [H|H]; contradiction).
  rewrite prepare_series_gaps. unfold prepare_series.
  rewrite Hg, (scan_app _ _ _ _ _ Hpre), (scan_cons_stop _ _ _ _ _ Hns).
  rewrite getitem_extend_empty. reflexivity.
Qed.

Lemma prepare_series_stops_witness :
  prepare_series (fill_gaps_with [])
    [series_flow; series_0_1_2_10_11 None; series_flow]
  = (fill_gaps_with [("flow"%string, [(5, 10)]); ("tag"%string, [])],
     [], Raise (KeyError "Time")).
Proof.
  etransitivity.
  - apply (prepare_series_stops_at_unnamed_index (fill_gaps_with []) 2
             [series_flow] [series_flow] (series_0_1_2_10_11 None)).
    + reflexivity.
    + repeat constructor.
    + discriminate.
    + discriminate.
  - reflexivity.
Defined.

(** ** Registry, factory and constructor *)

(** Registering a class under a name that is free succeeds, and creating
    with that name then calls that class with the arguments given. *)
Theorem preprocessor_then_create_calls_class
    (_types : gmap string constructor) (name : string) (cls : constructor)
    (args : list pyval) (kwargs : gmap string pyval) :
  _types !! name = None →
  (preprocessor _types name cls).2 = Return cls ∧
  create_preprocessor (preprocessor _types name cls).1 (PyStr name) args kwargs
  = cls args kwargs.
Proof.
  intros H. unfold preprocessor. rewrite H. split; [reflexivity|].
  unfold create_preprocessor, types_get. cbn [fst].
  rewrite lookup_insert_eq. reflexivity.
Qed.

Lemma preprocessor_then_create_witness :
  create_preprocessor
    (preprocessor (module_types Timedelta_2ns) "other" (other_cls "Other")).1
    (PyStr "other") [] fill_gaps_kwargs
  = Return (Object "Other" fill_gaps_kwargs).
Proof.
  apply (preprocessor_then_create_calls_class (module_types Timedelta_2ns)
           "other" (other_cls "Other") [] fill_gaps_kwargs).
  reflexivity.
Defined.

(** A registration, successful or not, changes nothing for any other type
    name: creating with another name gives what it gave before. *)
Theorem preprocessor_leaves_other_names
    (_types : gmap string constructor) (name : string) (cls : constructor)
    (other : pyval) (args : list pyval) (kwargs : gmap string pyval) :
  other ≠ PyStr name →
  create_preprocessor (preprocessor _types name cls).1 other args kwargs
  = create_preprocessor _types other args kwargs.
Proof.
  intros Hne. unfold preprocessor.
  destruct (_types !! name) eqn:E; [reflexivity|].
  unfold create_preprocessor, types_get. cbn [fst].
  destruct other as [| | |s|]; try reflexivity.
  rewrite lookup_insert_ne by congruence. reflexivity.
Qed.

Lemma preprocessor_leaves_other_names_witness :
  create_preprocessor
    (preprocessor (module_types Timedelta_2ns) "other" (other_cls "Other")).1
    (PyStr "fill_gaps") [] fill_gaps_kwargs
  = Return (FillGaps (fill_gaps_with [])).
Proof.
  rewrite (preprocessor_leaves_other_names (module_types Timedelta_2ns)
             "other" (other_cls "Other") (PyStr "fill_gaps") []
             fill_gaps_kwargs).
  - vm_compute. reflexivity.
  - discriminate.
Defined.

Lemma bind_params2_kwargs (p1 p2 : string) a b :
  p1 ≠ p2 →
  bind_params2 p1 p2 [] (<[p1 := a]> (<[p2 := b]> ∅)) = Return (a, b).
Proof.
  intros Hne. unfold bind_params2.
  rewrite lookup_insert_eq, lookup_insert_ne, lookup_insert_eq by exact Hne.
  rewrite decide_True; [reflexivity|].
  rewrite map_size_insert_None
    by (rewrite lookup_insert_ne by congruence; apply lookup_empty).
  rewrite map_size_insert_None by apply lookup_empty.
  rewrite map_size_empty. reflexivity.
Qed.

(** Creating a ["fill_gaps"] preprocessor from the keyword arguments
    [gap_size] and [replace_value]: a string [gap_size] is replaced by the
    timedelta pandas parses from it, and the exception of the parser is
    the outcome if it rejects the string; any other [gap_size] is kept as
    given; the gap registry of the new object is empty. *)
Theorem create_fill_gaps_normalizes_gap_size
    (Timedelta : string → outcome Z) (gap_size replace_value : pyval) :
  create_preprocessor (module_types Timedelta) (PyStr "fill_gaps") []
    (<["gap_size"%string := gap_size]>
       (<["replace_value"%string := replace_value]> ∅))
  = match gap_size with
    | PyStr s =>
        match Timedelta s with
        | Return ns =>
            Return (FillGaps {| gap_size := PyTimedelta ns;
                                replace_value := replace_value;
                                _gaps := [] |})
        | Raise e => Raise e
        end
    | _ =>
        Return (FillGaps {| gap_size := gap_size;
                            replace_value := replace_value;
                            _gaps := [] |})
    end.
Proof.
  unfold create_preprocessor, types_get, module_types, preprocessor.
  rewrite lookup_empty. cbn [fst]. rewrite lookup_insert_eq.
  unfold FillGapsPreprocessor_cls.
  rewrite bind_params2_kwargs by discriminate.
  unfold FillGapsPreprocessor_init.
  destruct gap_size as [| | |s|]; try reflexivity.
  cbn. destruct (Timedelta s); reflexivity.
Qed.

Lemma bind_params2_exact (p1 p2 : string) (kwargs : gmap string pyval) :
  p1 ≠ p2 → dom kwargs ≠ {[p1; p2]} →
  bind_params2 p1 p2 [] kwargs = Raise TypeError.
Proof.
  intros Hne Hdom. unfold bind_params2.
  destruct (kwargs !! p1) as [a|] eqn:E1; [|reflexivity].
  destruct (kwargs !! p2) as [b|] eqn:E2; [|reflexivity].
  destruct (decide (size kwargs = 2%nat)) as [Hsize|]; [|reflexivity].
  exfalso. apply Hdom. symmetry. apply set_subseteq_size_eq.
  - intros k Hk. apply elem_of_dom.
    apply elem_of_union in Hk as [Hk|Hk]; apply elem_of_singleton in Hk;
      subst k; eauto.
  - rewrite size_dom, Hsize, size_union, !size_singleton; [lia|].
    intros k Hk1 Hk2. apply elem_of_singleton in Hk1, Hk2. congruence.
Qed.

(** Constructing [FillGapsPreprocessor] from keyword arguments alone
    raises [TypeError] unless the keywords are exactly [gap_size] and
    [replace_value]: one missing, or any other keyword present, is
    rejected. *)
Theorem FillGapsPreprocessor_needs_exactly_its_keywords
    (Timedelta : string → outcome Z) (kwargs : gmap string pyval) :
  dom kwargs ≠ {["gap_size"%string; "replace_value"%string]} →
  FillGapsPreprocessor_cls Timedelta [] kwargs = Raise TypeError.
Proof.
  intros Hdom. unfold FillGapsPreprocessor_cls.
  rewrite bind_params2_exact; [reflexivity | discriminate | exact Hdom].
Qed.

Lemma FillGapsPreprocessor_keywords_witness :
  FillGapsPreprocessor_cls Timedelta_2ns []
    (<["gap_size"%string := PyStr "2ns"]> ∅)
  = Raise TypeError.
Proof.
  apply FillGapsPreprocessor_needs_exactly_its_keywords.
  intros E.
  assert (H : "replace_value"%string
              ∈ dom (<["gap_size"%string := PyStr "2ns"]> (∅ : gmap string pyval))).
  { rewrite E. apply elem_of_union. right. apply elem_of_singleton. reflexivity. }
  apply elem_of_dom in H as [v H]. vm_compute in H. discriminate.
Defined.

(** ** [normalize_preprocessor] *)

Lemma deref_dangling (h : heap) l : h !! l = None → deref h l = ∅.
Proof. intros H. unfold deref. rewrite lookup_total_alt, H. reflexivity. Qed.

(** Whatever it is given and however it ends, [normalize_preprocessor]
    leaves every dict that existed before the call with the entries it
    had. *)
Theorem normalize_preprocessor_mutates_no_dict
    (_types : gmap string constructor) (h : heap) (value : config) (l0 : loc) :
  is_Some (h !! l0) →
  (normalize_preprocessor _types h value).1 !! l0 = h !! l0.
Proof.
  intros H0. destruct value as [l|i|v]; [|reflexivity..].
  destruct (h !! l) as [d|] eqn:El.
  - destruct (d !! "type"%string) as [ty|] eqn:Et.
    + destruct (normalize_preprocessor_Dict _types h l d ty El Et)
        as (h' & -> & Hsame).
      apply Hsame, H0.
    + unfold normalize_preprocessor. rewrite (deref_lookup _ _ _ El), Et.
      reflexivity.
  - unfold normalize_preprocessor. rewrite (deref_dangling _ _ El).
    rewrite lookup_empty. reflexivity.
Qed.

Lemma normalize_preprocessor_mutates_no_dict_witness :
  (normalize_preprocessor (module_types Timedelta_2ns)
     {[ 1%positive := fill_gaps_record ]} (Dict 1%positive)).1 !! 1%positive
  = Some fill_gaps_record.
Proof.
  rewrite normalize_preprocessor_mutates_no_dict; [reflexivity|].
  eexists. reflexivity.
Defined.

(** What [normalize_preprocessor] returns, it returns unchanged when
    given it again. *)
Theorem normalize_preprocessor_idempotent
    (_types : gmap string constructor) (h h' : heap) (value value' : config) :
  normalize_preprocessor _types h value = (h', Return value') →
  normalize_preprocessor _types h' value' = (h', Return value').
Proof.
  destruct value as [l|i|v]; cbn [normalize_preprocessor].
  - destruct (deref h l !! "type"%string); [|discriminate].
    destruct (deepcopy h l) as [h1 l'].
    destruct (dict_pop h1 l' "type") as [h2 [ty|e]]; [|discriminate].
    destruct (create_preprocessor _types ty [] (deref h2 l')) as [i|e];
      [|discriminate].
    intros [= <- <-]. reflexivity.
  - intros [= <- <-]. reflexivity.
  - intros [= <- <-]. reflexivity.
Qed.

Lemma normalize_preprocessor_idempotent_witness :
  ∃ h', normalize_preprocessor (module_types Timedelta_2ns)
          {[ 1%positive := fill_gaps_record ]} (Dict 1%positive)
        = (h', Return (Inst (FillGaps (fill_gaps_with [])))) ∧
    normalize_preprocessor (module_types Timedelta_2ns) h'
      (Inst (FillGaps (fill_gaps_with [])))
    = (h', Return (Inst (FillGaps (fill_gaps_with [])))).
Proof.
  destruct (normalize_preprocessor (module_types Timedelta_2ns)
              {[ 1%positive := fill_gaps_record ]} (Dict 1%positive))
    as [h' out] eqn:E.
  assert (Hout : out = Return (Inst (FillGaps (fill_gaps_with [])))).
  { apply (f_equal snd) in E. vm_compute in E. symmetry. exact E. }
  subst out. exists h'. split; [reflexivity|].
  apply (normalize_preprocessor_idempotent (module_types Timedelta_2ns)
           {[ 1%positive := fill_gaps_record ]} h' (Dict 1%positive) _ E).
Defined.

(** A record whose ["type"] is not a registered name makes
    [normalize_preprocessor] raise the not-found [ValueError], which
    carries the value of ["type"]. *)
Theorem normalize_preprocessor_unknown_type
    (_types : gmap string constructor) (h : heap) (l : loc)
    (d : gmap string pyval) (preprocessor_type : pyval) :
  h !! l = Some d →
  d !! "type"%string = Some preprocessor_type →
  types_get _types preprocessor_type = None →
  (normalize_preprocessor _types h (Dict l)).2
  = Raise (ValueError cant_find [preprocessor_type]).
Proof.
  intros Hl Ht Hnone.
  destruct (normalize_preprocessor_Dict _types h l d preprocessor_type Hl Ht)
    as (h' & -> & _).
  cbn [snd]. unfold create_preprocessor. rewrite Hnone. reflexivity.
Qed.

Lemma normalize_preprocessor_unknown_type_witness :
  (normalize_preprocessor (module_types Timedelta_2ns)
     {[ 1%positive := <["type"%string := PyInt 3]> fill_gaps_kwargs ]}
     (Dict 1%positive)).2
  = Raise (ValueError cant_find [PyInt 3]).
Proof.
  apply (normalize_preprocessor_unknown_type (module_types Timedelta_2ns)
           {[ 1%positive := <["type"%string := PyInt 3]> fill_gaps_kwargs ]}
           1%positive (<["type"%string := PyInt 3]> fill_gaps_kwargs) (PyInt 3));
    reflexivity.
Defined.

(** ** The mock provider of the tests *)

(** [MockProducerRegExp.load_dataframes] yields one table, labelled with
    the provider's pattern, for every tag it accepts; at the first tag it
    does not accept it raises [ValueError] for that tag, after the tables
    of the tags before it, and looks at no later tag. *)
Theorem mock_load_stops_at_first_rejected_tag
    (accepts : string → bool) (pattern : string)
    (pre post : list string) (bad : string) :
  Forall (λ tag, accepts tag = true) pre →
  mock_load accepts pattern pre = (replicate (length pre) pattern, None) ∧
  (accepts bad = false →
   mock_load accepts pattern (pre ++ bad :: post)
   = (replicate (length pre) pattern,
      Some (ValueError unable_to_find [PyStr bad]))).
Proof.
  intros Hpre. induction Hpre as [|tag pre Htag _ [IH1 IH2]].
  - split; [reflexivity|]. intros Hbad. simpl. rewrite Hbad. reflexivity.
  - split.
    + cbn [mock_load]. rewrite Htag, IH1. reflexivity.
    + intros Hbad. cbn [app mock_load]. rewrite Htag, (IH2 Hbad). reflexivity.
Qed.

Lemma mock_load_witness :
  load_dataframes containing_b_producer () ()
    ["cba"%string; "abba"%string; "xyz"%string; "b"%string]
  = ([".*b.*"%string; ".*b.*"%string],
     Some (ValueError unable_to_find [PyStr "xyz"])).
Proof.
  apply (proj2 (mock_load_stops_at_first_rejected_tag contains_b ".*b.*"
                  ["cba"%string; "abba"%string] ["b"%string] "xyz"%string
                  ltac:(repeat constructor))).
  reflexivity.
Defined.
